(** * GamePlayController: turn action orchestration and feedback routing

    A shallow embedding of
    [server/app/controllers/game-play-controller/game-play.controller.ts].

    The controller is effectful: it calls the game-play service (the engine),
    the active-game service (session lookup), the virtual-player service and
    the socket service, it throws and catches exceptions, and it awaits a
    delay.  It is embedded in a small monad that threads the state of the
    external world, collects the trace of observable events in program
    order, and distinguishes normal completion from a thrown exception. *)

From Stdlib Require Import String List ZArith Bool Lia.
Import ListNotations.
Open Scope string_scope.
Open Scope list_scope.

(** ** Data model *)

(** [ActionType] is imported from [classes/communication/action-data]; the
    controller itself only names [ActionType.PASS]. *)
Inductive ActionType : Type :=
| PLACE
| EXCHANGE
| PASS
| OtherActionType (name : string).

(** A payload is a JSON object; [{}] is the empty list of fields. *)
Definition ActionPayload : Type := list (string * string).

(** [ActionData] arrives as the body of a request: every field may be
    missing ([undefined] in the source, [None] here). *)
Record ActionData : Type := {
  type : option ActionType;
  payload : option ActionPayload;
  input : option string
}.

(** A chat message as sent on the ['newMessage'] channel. *)
Record Message : Type := {
  content : string;
  senderId : string;
  gameId : string;
  isClickable : option bool
}.

Module Fb.
(** [FeedbackMessage]: both fields are optional in the source. *)
Record FeedbackMessage : Type := {
  message : option string;
  isClickable : option bool
}.
End Fb.

Record FeedbackMessages : Type := {
  localPlayerFeedback : Fb.FeedbackMessage;
  opponentFeedback : Fb.FeedbackMessage;
  endGameFeedback : list Fb.FeedbackMessage
}.

Module Player.
Record PlayerData : Type := { id : string }.
End Player.

Record RoundData : Type := { playerData : Player.PlayerData }.

(** [GameUpdateData]: the controller reads [round] only; [rest] stands for
    the other fields of the broadcast state. *)
Record GameUpdateData : Type := {
  round : option RoundData;
  rest : list (string * string)
}.

(** An exception value: [message] as on every JS [Error], [status] as on an
    [HttpException] (absent on other errors). *)
Record Exception : Type := {
  message : string;
  status : option Z
}.

(** Modelled from the spec: the [HttpException] class is imported, its
    source is not part of the controller; a failure carries a message and a
    status classification, and the constructor keeps what it is given. *)
Definition HttpException (m : string) (s : option Z) : Exception :=
  {| message := m; status := s |}.

(** [StatusCodes.BAD_REQUEST] of the http-status-codes package. *)
Definition BAD_REQUEST : Z := 400.

(** What reading [.length] of [undefined] throws (the message is Node's). *)
Definition TypeError_length_of_undefined : Exception :=
  {| message := "Cannot read properties of undefined (reading 'length')";
     status := None |}.

(** ** Observable events *)

Inductive SocketEvent : Type :=
| NewMessage (m : Message)
| GameUpdate (d : GameUpdateData).

(** The trace records, in program order, every emission through the socket
    service, every call to the game-play service and to the virtual-player
    service, and the awaited delay. *)
Inductive Event : Type :=
| EmitToSocket (socketId : string) (ev : SocketEvent)
| EmitToRoom (room : string) (ev : SocketEvent)
| PlayActionCall (game player : string) (data : ActionData)
| IsGameOverCall (game player : string)
| ResetObjectivesCall (game player : string)
| DelayFor (ms : Z)
| TriggerVirtualPlayerTurn (data : GameUpdateData) (game player : string).

(** ** External collaborators *)

Inductive Result (A : Type) : Type :=
| Ok (a : A)
| Err (e : Exception).
Arguments Ok {A} a.
Arguments Err {A} e.

(** The object returned by [ActiveGameService.getGame]; the controller only
    calls [getPlayer(playerId, IS_OPPONENT)] on it. *)
Record Game : Type := {
  getPlayer : string -> bool -> Result Player.PlayerData
}.

(** The services injected in the constructor and the imported helpers, over
    a state [W] of the external world.  Any call may throw.  [delayFor] is
    what the rest of the server does to the world while the controller
    awaits [Delay.for]. *)
Record Services (W : Type) : Type := {
  playAction : string -> string -> ActionData -> W ->
               Result (option GameUpdateData * option FeedbackMessages) * W;
  isGameOver : string -> string -> W -> Result bool;
  handleResetObjectives : string -> string -> W -> Result GameUpdateData * W;
  getGame : string -> string -> W -> Result Game;
  delayFor : Z -> W -> W;
  isIdVirtualPlayer : string -> bool
}.
Arguments playAction {W} _ _ _ _ _.
Arguments isGameOver {W} _ _ _ _.
Arguments handleResetObjectives {W} _ _ _ _.
Arguments getGame {W} _ _ _ _.
Arguments delayFor {W} _ _ _.
Arguments isIdVirtualPlayer {W} _ _.

(** The imported constants of [constants/game-constants] and
    [constants/services-errors]; their values are not in the controller.
    [COMMAND_IS_INVALID] is a function of the raw input, which the
    controller may pass as [undefined]. *)
Record Constants : Type := {
  INVALID_WORD_TIMEOUT : Z;
  IS_OPPONENT : bool;
  SYSTEM_ID : string;
  SYSTEM_ERROR_ID : string;
  OPPONENT_PLAYED_INVALID_WORD : string;
  COMMAND_IS_INVALID : option string -> string
}.

(** ** The effect monad *)

Inductive Completion (A : Type) : Type :=
| Normal (a : A)
| Abrupt (e : Exception)
| Unfinished.
Arguments Normal {A} a.
Arguments Abrupt {A} e.
Arguments Unfinished {A}.

Definition M (W A : Type) : Type := W -> Completion A * W * list Event.

Definition ret {W A} (a : A) : M W A := fun w => (Normal a, w, []).

Definition throw {W A} (e : Exception) : M W A := fun w => (Abrupt e, w, []).

Definition unfinished {W A} : M W A := fun w => (Unfinished, w, []).

Definition bind {W A B} (m : M W A) (k : A -> M W B) : M W B :=
  fun w =>
    match m w with
    | (Normal a, w1, t1) =>
        match k a w1 with (r, w2, t2) => (r, w2, t1 ++ t2) end
    | (Abrupt e, w1, t1) => (Abrupt e, w1, t1)
    | (Unfinished, w1, t1) => (Unfinished, w1, t1)
    end.

(** [try m catch (e) h]: effects of [m] before the throw persist. *)
Definition tryCatch {W A} (m : M W A) (h : Exception -> M W A) : M W A :=
  fun w =>
    match m w with
    | (Abrupt e, w1, t1) =>
        match h e w1 with (r, w2, t2) => (r, w2, t1 ++ t2) end
    | other => other
    end.

Definition emit {W} (ev : Event) : M W unit := fun w => (Normal tt, w, [ev]).

Definition liftResult {A} (r : Result A) : Completion A :=
  match r with Ok a => Normal a | Err e => Abrupt e end.

Declare Scope ctrl_scope.
Delimit Scope ctrl_scope with ctrl.
Notation "x <- m ;; k" := (bind m (fun x => k))
  (at level 100, m at next level, right associativity) : ctrl_scope.
Notation "m ;; k" := (bind m (fun _ => k))
  (at level 100, right associativity) : ctrl_scope.
Open Scope ctrl_scope.

(** [String.prototype.includes]. *)
Definition includes (hay needle : string) : bool :=
  match index 0 needle hay with Some _ => true | None => false end.

(** ** The controller *)

Section Controller.

Variable W : Type.
Variable svc : Services W.
Variable cst : Constants.

(** *** Calls to the collaborators *)

Definition callPlayAction (g p : string) (data : ActionData)
  : M W (option GameUpdateData * option FeedbackMessages) :=
  fun w => match playAction svc g p data w with
           | (r, w1) => (liftResult r, w1, [PlayActionCall g p data])
           end.

Definition callIsGameOver (g p : string) : M W bool :=
  fun w => (liftResult (isGameOver svc g p w), w, [IsGameOverCall g p]).

Definition callHandleResetObjectives (g p : string) : M W GameUpdateData :=
  fun w => match handleResetObjectives svc g p w with
           | (r, w1) => (liftResult r, w1, [ResetObjectivesCall g p])
           end.

Definition callGetGame (g p : string) : M W Game :=
  fun w => (liftResult (getGame svc g p w), w, []).

Definition callGetPlayer (game : Game) (p : string) (opp : bool)
  : M W Player.PlayerData :=
  fun w => (liftResult (getPlayer game p opp), w, []).

Definition awaitDelay (ms : Z) : M W unit :=
  fun w => (Normal tt, delayFor svc ms w, [DelayFor ms]).

(** *** [isWordNotInDictionaryError] *)

Definition isWordNotInDictionaryError (exception : Exception) : bool :=
  includes (message exception) " n'est pas dans le dictionnaire choisi.".

(** *** [gameUpdate] *)

Definition gameUpdate (g : string) (data : GameUpdateData) : M W unit :=
  emit (EmitToRoom g (GameUpdate data)) ;;
  match round data with
  | Some r =>
      if isIdVirtualPlayer svc (Player.id (playerData r)) then
        _ <- callGetGame g (Player.id (playerData r)) ;;
        emit (TriggerVirtualPlayerTurn data g (Player.id (playerData r)))
      else ret tt
  | None => ret tt
  end.

(** *** [handleFeedback] *)

(** Truthiness of an optional string: present and not empty. *)
Definition truthy (o : option string) : bool :=
  match o with
  | Some s => negb (String.eqb s "")
  | None => false
  end.

(** [o ?? ''] *)
Definition orEmpty (o : option string) : string :=
  match o with Some s => s | None => "" end.

(** [Array.prototype.join]. *)
Definition join (sep : string) (l : list string) : string :=
  String.concat sep l.

Definition handleFeedback (g p : string) (feedback : FeedbackMessages)
  : M W unit :=
  (if truthy (Fb.message (localPlayerFeedback feedback)) then
     emit (EmitToSocket p (NewMessage
       {| content := orEmpty (Fb.message (localPlayerFeedback feedback));
          senderId := SYSTEM_ID cst;
          gameId := g;
          isClickable := Fb.isClickable (localPlayerFeedback feedback) |}))
   else ret tt) ;;
  (if truthy (Fb.message (opponentFeedback feedback)) then
     game <- callGetGame g p ;;
     opponent <- callGetPlayer game p (IS_OPPONENT cst) ;;
     emit (EmitToSocket (Player.id opponent) (NewMessage
       {| content := orEmpty (Fb.message (opponentFeedback feedback));
          senderId := SYSTEM_ID cst;
          gameId := g;
          isClickable := Fb.isClickable (opponentFeedback feedback) |}))
   else ret tt) ;;
  (if (0 <? length (endGameFeedback feedback))%nat then
     emit (EmitToRoom g (NewMessage
       {| content := join "<br>"
            (map (fun feedbackMesssage => orEmpty (Fb.message feedbackMesssage))
                 (endGameFeedback feedback));
          senderId := SYSTEM_ID cst;
          gameId := g;
          isClickable := None |}))
   else ret tt).

(** *** [handleError] *)

(** The last statement of [handleError]: the notification to the acting
    player. *)
Definition notifyCommandIsInvalid (exception : Exception)
    (input : option string) (p g : string) : M W unit :=
  emit (EmitToSocket p (NewMessage
    {| content := (COMMAND_IS_INVALID cst input ++ message exception)%string;
       senderId := SYSTEM_ERROR_ID cst;
       gameId := g;
       isClickable := None |})).

Definition handleError (exception : Exception) (input : option string)
    (p g : string) : M W unit :=
  if isWordNotInDictionaryError exception then
    awaitDelay (INVALID_WORD_TIMEOUT cst) ;;
    over <- callIsGameOver g p ;;
    if (over : bool) then ret tt (* return *)
    else
      update <- callHandleResetObjectives g p ;;
      gameUpdate g update ;;
      game <- callGetGame g p ;;
      opponent <- callGetPlayer game p (IS_OPPONENT cst) ;;
      emit (EmitToSocket (Player.id opponent) (NewMessage
        {| content := OPPONENT_PLAYED_INVALID_WORD cst;
           senderId := SYSTEM_ID cst;
           gameId := g;
           isClickable := None |})) ;;
      notifyCommandIsInvalid exception input p g
  else
    notifyCommandIsInvalid exception input p g.

(** *** [handlePlayAction] *)

(** The echo of the raw input; reading [data.input.length] throws when
    [input] is absent. *)
Definition echoInput (g p : string) (data : ActionData) : M W unit :=
  match input data with
  | None => throw TypeError_length_of_undefined
  | Some s =>
      if (0 <? String.length s)%nat then
        emit (EmitToSocket p (NewMessage
          {| content := s; senderId := p; gameId := g;
             isClickable := None |}))
      else ret tt
  end.

(** The body of the [try] block. *)
Definition tryBlock (g p : string) (data : ActionData) : M W unit :=
  echoInput g p data ;;
  res <- callPlayAction g p data ;;
  (match fst res with
   | Some updateData => gameUpdate g updateData
   | None => ret tt
   end) ;;
  (match snd res with
   | Some feedback => handleFeedback g p feedback
   | None => ret tt
   end).

(** The action the controller resubmits after an invalid word. *)
Definition passAction : ActionData :=
  {| type := Some PASS; payload := Some []; input := Some "" |}.

(** The body of the [catch] block.  [resubmit] stands for the nested call
    [this.handlePlayAction(gameId, playerId, PASS)]. *)
Definition catchBlock (resubmit : M W unit) (exception : Exception)
    (g p : string) (data : ActionData) : M W unit :=
  if isIdVirtualPlayer svc p then
    throw (HttpException (message exception) (status exception))
  else
    handleError exception (input data) p g ;;
    if isWordNotInDictionaryError exception then
      over <- callIsGameOver g p ;;
      if (over : bool) then ret tt (* return *)
      else resubmit
    else ret tt.

(** [handlePlayAction] calls itself in its [catch] block, with nothing
    in the source that bounds the depth: [fuel] is the number of nested
    resubmissions allowed, and the run is [Unfinished] beyond it. *)
Fixpoint handlePlayAction (fuel : nat) (g p : string) (data : ActionData)
  {struct fuel} : M W unit :=
  match type data with
  | None => throw (HttpException "type is required" (Some BAD_REQUEST))
  | Some _ =>
    match payload data with
    | None => throw (HttpException "payload is required" (Some BAD_REQUEST))
    | Some _ =>
      tryCatch (tryBlock g p data)
        (fun exception =>
           catchBlock
             match fuel with
             | O => unfinished
             | S fuel' => handlePlayAction fuel' g p passAction
             end
             exception g p data)
    end
  end.

(** The nested call of the [catch] block, as [handlePlayAction] with [fuel]
    sees it. *)
Definition resubmission (fuel : nat) (g p : string) : M W unit :=
  match fuel with
  | O => unfinished
  | S fuel' => handlePlayAction fuel' g p passAction
  end.

End Controller.

Arguments callPlayAction {W} svc g p data _.
Arguments callIsGameOver {W} svc g p _.
Arguments callHandleResetObjectives {W} svc g p _.
Arguments callGetGame {W} svc g p _.
Arguments callGetPlayer {W} game p opp _.
Arguments awaitDelay {W} svc ms _.
Arguments gameUpdate {W} svc g data _.
Arguments handleFeedback {W} svc cst g p feedback _.
Arguments notifyCommandIsInvalid {W} cst exception input p g _.
Arguments handleError {W} svc cst exception input p g _.
Arguments echoInput {W} g p data _.
Arguments tryBlock {W} svc cst g p data _.
Arguments catchBlock {W} svc cst resubmit exception g p data _.
Arguments handlePlayAction {W} svc cst fuel g p data _.
Arguments resubmission {W} svc cst fuel g p _.

(** ** Observations on traces *)

(** What the echo contributes to the trace for a raw input [s]. *)
Definition echoTrace (g p s : string) : list Event :=
  if (0 <? String.length s)%nat then
    [EmitToSocket p (NewMessage
       {| content := s; senderId := p; gameId := g; isClickable := None |})]
  else [].

(** What [gameUpdate] adds after the broadcast of [data]. *)
Definition triggerTrace {W} (svc : Services W) (g : string)
    (data : GameUpdateData) : list Event :=
  match round data with
  | Some r =>
      if isIdVirtualPlayer svc (Player.id (playerData r)) then
        [TriggerVirtualPlayerTurn data g (Player.id (playerData r))]
      else []
  | None => []
  end.

(** The session lookup that [gameUpdate] makes for a virtual player's turn
    succeeds (or is not made). *)
Definition triggerLookupOk {W} (svc : Services W) (g : string)
    (data : GameUpdateData) (w : W) : bool :=
  match round data with
  | Some r =>
      if isIdVirtualPlayer svc (Player.id (playerData r)) then
        match getGame svc g (Player.id (playerData r)) w with
        | Ok _ => true
        | Err _ => false
        end
      else true
  | None => true
  end.

(** The notification that ends [handleError]. *)
Definition commandIsInvalidNotice (cst : Constants) (exception : Exception)
    (input : option string) (p g : string) : Event :=
  EmitToSocket p (NewMessage
    {| content := (COMMAND_IS_INVALID cst input ++ message exception)%string;
       senderId := SYSTEM_ERROR_ID cst;
       gameId := g;
       isClickable := None |}).

(** The notification to the opponent in the invalid-word recovery. *)
Definition opponentNotice (cst : Constants) (opponentId g : string) : Event :=
  EmitToSocket opponentId (NewMessage
    {| content := OPPONENT_PLAYED_INVALID_WORD cst;
       senderId := SYSTEM_ID cst;
       gameId := g;
       isClickable := None |}).

Definition isServiceCall (ev : Event) : bool :=
  match ev with
  | PlayActionCall _ _ _ | IsGameOverCall _ _
  | ResetObjectivesCall _ _ | DelayFor _ => true
  | _ => false
  end.

Definition isPlayActionCall (ev : Event) : bool :=
  match ev with PlayActionCall _ _ _ => true | _ => false end.

Definition isResetObjectivesCall (ev : Event) : bool :=
  match ev with ResetObjectivesCall _ _ => true | _ => false end.

Definition isEmission (ev : Event) : bool :=
  match ev with EmitToSocket _ _ | EmitToRoom _ _ => true | _ => false end.

Definition isSocketEmission (ev : Event) : bool :=
  match ev with EmitToSocket _ _ => true | _ => false end.

Definition isRoomEmission (ev : Event) : bool :=
  match ev with EmitToRoom _ _ => true | _ => false end.

Definition isUpdateBroadcast (ev : Event) : bool :=
  match ev with EmitToRoom _ (GameUpdate _) => true | _ => false end.

(** A chat message whose sender is [p]. *)
Definition sentBy (p : string) (ev : Event) : bool :=
  match ev with
  | EmitToSocket _ (NewMessage m) | EmitToRoom _ (NewMessage m) =>
      String.eqb (senderId m) p
  | _ => false
  end.

(** A chat message delivered to the socket of [p] from the system-error
    sender. *)
Definition isErrorNoticeTo (cst : Constants) (p : string) (ev : Event) : bool :=
  match ev with
  | EmitToSocket s (NewMessage m) =>
      String.eqb s p && String.eqb (senderId m) (SYSTEM_ERROR_ID cst)
  | _ => false
  end.

(** A chat message with the fixed invalid-word text from the system sender. *)
Definition isOpponentNotice (cst : Constants) (ev : Event) : bool :=
  match ev with
  | EmitToSocket _ (NewMessage m) =>
      String.eqb (content m) (OPPONENT_PLAYED_INVALID_WORD cst)
      && String.eqb (senderId m) (SYSTEM_ID cst)
  | _ => false
  end.

(** Events that come from the system side: updates, triggers, and chat
    messages signed by one of the two reserved senders. *)
Definition fromSystem (cst : Constants) (ev : Event) : bool :=
  match ev with
  | EmitToSocket _ (NewMessage m) | EmitToRoom _ (NewMessage m) =>
      String.eqb (senderId m) (SYSTEM_ID cst)
      || String.eqb (senderId m) (SYSTEM_ERROR_ID cst)
  | EmitToRoom _ (GameUpdate _) => true
  | TriggerVirtualPlayerTurn _ _ _ => true
  | _ => false
  end.

(** Events that are not chat messages of a player: system-side events and
    calls to the services. *)
Definition quiet (cst : Constants) (ev : Event) : bool :=
  fromSystem cst ev || isServiceCall ev.

Definition countIf (f : Event -> bool) (t : list Event) : nat :=
  length (filter f t).

Definition completion {W A} (r : Completion A * W * list Event) : Completion A :=
  fst (fst r).

Definition world {W A} (r : Completion A * W * list Event) : W :=
  snd (fst r).

Definition trace {W A} (r : Completion A * W * list Event) : list Event :=
  snd r.

(** Two readings of the specification that the code does not follow; they
    are stated here to be tested on the concrete server below. *)

(** "Both the invalid-word notification and the generic notification are
    sent to the acting player": [handleError] delivers two system-error
    messages to [p]. *)
Definition actorGetsTwoErrorNotices {W} (svc : Services W) (cst : Constants)
    (e : Exception) (i : option string) (p g : string) (w : W) : Prop :=
  countIf (isErrorNoticeTo cst p) (trace (handleError svc cst e i p g w)) = 2.

(** "Recovery stops silently rather than raising a new failure out of the
    dispatch": the dispatch returns normally. *)
Definition dispatchReturns {W} (svc : Services W) (cst : Constants)
    (fuel : nat) (g p : string) (data : ActionData) (w : W) : Prop :=
  exists w' t, handlePlayAction svc cst fuel g p data w = (Normal tt, w', t).

(** ** A small concrete server

    A world with one game between ["alice"] and ["bob"], in which every
    action but PASS is rejected for a word that is not in the dictionary.
    It is used to run the controller on concrete requests. *)

Module Example.

Record World : Type := {
  over : bool;             (* the game is over *)
  alive : bool;            (* the session still exists *)
  deletedDuringDelay : bool; (* the session is deleted while a delay is pending *)
  resets : nat             (* how often the objectives were reset *)
}.

Definition noGameFound : Exception :=
  {| message := "No game found with the given id"; status := Some 404%Z |}.

Definition wordRejected : Exception :=
  {| message := "Le mot zzz n'est pas dans le dictionnaire choisi.";
     status := Some 403%Z |}.

Definition passUpdate : GameUpdateData :=
  {| round := Some {| playerData := {| Player.id := "bob" |} |};
     rest := [("tileReserve", "88")] |}.

Definition resetUpdate : GameUpdateData :=
  {| round := None; rest := [("gameObjective", "reset")] |}.

Definition game : Game :=
  {| getPlayer := fun playerId isOpponent =>
       Ok {| Player.id := if String.eqb playerId "alice" then "bob" else "alice" |} |}.

Definition services : Services World :=
  {| playAction := fun g p data w =>
       match type data with
       | Some PASS => (Ok (Some passUpdate, None), w)
       | _ => (Err wordRejected, w)
       end;
     isGameOver := fun g p w =>
       if alive w then Ok (over w) else Err noGameFound;
     handleResetObjectives := fun g p w =>
       (Ok resetUpdate,
        {| over := over w; alive := alive w;
           deletedDuringDelay := deletedDuringDelay w;
           resets := S (resets w) |});
     getGame := fun g p w => if alive w then Ok game else Err noGameFound;
     delayFor := fun ms w =>
       {| over := over w;
          alive := alive w && negb (deletedDuringDelay w);
          deletedDuringDelay := deletedDuringDelay w;
          resets := resets w |};
     isIdVirtualPlayer := fun id => prefix "virtual-player" id |}.

Definition constants : Constants :=
  {| INVALID_WORD_TIMEOUT := 3000;
     IS_OPPONENT := true;
     SYSTEM_ID := "system";
     SYSTEM_ERROR_ID := "system-error";
     OPPONENT_PLAYED_INVALID_WORD := "Your opponent played an invalid word.";
     COMMAND_IS_INVALID := fun command =>
       ("The command " ++
        match command with Some c => c | None => "undefined" end ++
        " is invalid: ")%string |}.

Definition running : World :=
  {| over := false; alive := true; deletedDuringDelay := false; resets := 0 |}.

Definition finished : World :=
  {| over := true; alive := true; deletedDuringDelay := false; resets := 0 |}.

Definition doomed : World :=
  {| over := false; alive := true; deletedDuringDelay := true; resets := 0 |}.

Definition placeZzz : ActionData :=
  {| type := Some PLACE; payload := Some [("tiles", "zzz")];
     input := Some "!placer h8h zzz" |}.

End Example.

(** ** The chat and error channels, and the routes *)

(** The body of a chat request, typed [Message] in the source; the two
    fields that the controller tests for [undefined] may be missing. *)
Record MessageBody : Type := {
  bodySenderId : option string;
  bodyContent : option string;
  bodyGameId : string;
  bodyIsClickable : option bool
}.

(** The imported constants of [constants/controllers-errors]. *)
Record ControllerErrors : Type := {
  SENDER_REQUIRED : string;
  CONTENT_REQUIRED : string
}.

(** [StatusCodes.NO_CONTENT] of the http-status-codes package. *)
Definition NO_CONTENT : Z := 204.

(** What a route handler does with [res]: [res.status(code).send()], or
    [HttpException.sendError(exception, res)]. *)
Inductive Reply : Type :=
| StatusSent (code : Z)
| ErrorSent (exception : Exception).

Section Channels.

Variable W : Type.
Variable svc : Services W.
Variable cst : Constants.
Variable errs : ControllerErrors.

(** *** [handleNewMessage] *)

Definition handleNewMessage (g : string) (message : MessageBody) : M W unit :=
  match bodySenderId message with
  | None => throw (HttpException (SENDER_REQUIRED errs) (Some BAD_REQUEST))
  | Some sender =>
    match bodyContent message with
    | None => throw (HttpException (CONTENT_REQUIRED errs) (Some BAD_REQUEST))
    | Some text =>
        emit (EmitToRoom g (NewMessage
          {| content := text; senderId := sender;
             gameId := bodyGameId message;
             isClickable := bodyIsClickable message |}))
    end
  end.

(** *** [handleNewError] *)

Definition handleNewError (p g : string) (message : MessageBody) : M W unit :=
  match bodySenderId message with
  | None => throw (HttpException (SENDER_REQUIRED errs) (Some BAD_REQUEST))
  | Some _ =>
    match bodyContent message with
    | None => throw (HttpException (CONTENT_REQUIRED errs) (Some BAD_REQUEST))
    | Some text =>
        emit (EmitToSocket p (NewMessage
          {| content := text; senderId := SYSTEM_ERROR_ID cst;
             gameId := g; isClickable := None |}))
    end
  end.

(** *** [configureRouter] *)

(** The [try]/[catch] of every route: 204 when the handler returns, the
    exception handed to [sendError] when it throws.  A run that is out of
    fuel has not replied. *)
Definition respond {A} (handler : M W A)
  : W -> option Reply * W * list Event :=
  fun w =>
    match handler w with
    | (Normal _, w1, t) => (Some (StatusSent NO_CONTENT), w1, t)
    | (Abrupt exception, w1, t) => (Some (ErrorSent exception), w1, t)
    | (Unfinished, w1, t) => (None, w1, t)
    end.

(** POST [/games/:gameId/players/:playerId/action] *)
Definition postAction (fuel : nat) (g p : string) (data : ActionData) :=
  respond (handlePlayAction svc cst fuel g p data).

(** POST [/games/:gameId/players/:playerId/message]; the player of the
    path is not read. *)
Definition postMessage (g p : string) (message : MessageBody) :=
  respond (handleNewMessage g message).

(** POST [/games/:gameId/players/:playerId/error] *)
Definition postError (g p : string) (message : MessageBody) :=
  respond (handleNewError p g message).

End Channels.

Arguments handleNewMessage {W} errs g message _.
Arguments handleNewError {W} cst errs p g message _.
Arguments respond {W A} handler _.
Arguments postAction {W} svc cst fuel g p data _.
Arguments postMessage {W} errs g p message _.
Arguments postError {W} cst errs g p message _.

(** ** More observations on traces *)

Definition isTrigger (ev : Event) : bool :=
  match ev with TriggerVirtualPlayerTurn _ _ _ => true | _ => false end.

(** Anything delivered to the socket of [p]. *)
Definition isDeliveredTo (p : string) (ev : Event) : bool :=
  match ev with
  | EmitToSocket s _ => String.eqb s p
  | _ => false
  end.

(** The events of a feedback routed for player [p] whose opponent is
    [opponentId]: the local message to [p], the opponent's message to
    [opponentId], the end-game messages joined and broadcast to the room;
    each one only if there is something to send. *)
Definition feedbackTrace (cst : Constants) (g p opponentId : string)
    (feedback : FeedbackMessages) : list Event :=
  (if negb (String.eqb (orEmpty (Fb.message (localPlayerFeedback feedback))) "")
   then [EmitToSocket p (NewMessage
           {| content := orEmpty (Fb.message (localPlayerFeedback feedback));
              senderId := SYSTEM_ID cst;
              gameId := g;
              isClickable := Fb.isClickable (localPlayerFeedback feedback) |})]
   else [])
  ++ (if negb (String.eqb (orEmpty (Fb.message (opponentFeedback feedback))) "")
      then [EmitToSocket opponentId (NewMessage
              {| content := orEmpty (Fb.message (opponentFeedback feedback));
                 senderId := SYSTEM_ID cst;
                 gameId := g;
                 isClickable := Fb.isClickable (opponentFeedback feedback) |})]
      else [])
  ++ match endGameFeedback feedback with
     | [] => []
     | first :: others =>
         [EmitToRoom g (NewMessage
            {| content :=
                 fold_left
                   (fun text item =>
                      (text ++ "<br>" ++ orEmpty (Fb.message item))%string)
                   others (orEmpty (Fb.message first));
               senderId := SYSTEM_ID cst;
               gameId := g;
               isClickable := None |})]
     end.

(** The update names a round whose player is a virtual player. *)
Definition roundIsVirtual {W} (svc : Services W) (data : GameUpdateData) : bool :=
  match round data with
  | Some r => isIdVirtualPlayer svc (Player.id (playerData r))
  | None => false
  end.

(** The event concerns the game [g]: a room is the room of [g], a chat
    message names [g], a service is called for [g]. *)
Definition inGame (g : string) (ev : Event) : bool :=
  match ev with
  | EmitToSocket _ (NewMessage m) => String.eqb (gameId m) g
  | EmitToSocket _ (GameUpdate _) => true
  | EmitToRoom r (NewMessage m) => String.eqb r g && String.eqb (gameId m) g
  | EmitToRoom r (GameUpdate _) => String.eqb r g
  | PlayActionCall g' _ _ => String.eqb g' g
  | IsGameOverCall g' _ => String.eqb g' g
  | ResetObjectivesCall g' _ => String.eqb g' g
  | DelayFor _ => true
  | TriggerVirtualPlayerTurn _ g' _ => String.eqb g' g
  end.

(** The text that [isWordNotInDictionaryError] looks for. *)
Definition notInDictionary : string :=
  " n'est pas dans le dictionnaire choisi.".

(** ** A second concrete server, with switches

    The engine answers every action but PASS with [answer]; the switches
    break the reset or the session lookup, make the engine reject PASS as
    well, or end the game at the first reset. *)

Module Lab.

Record World : Type := {
  answer : Result (option GameUpdateData * option FeedbackMessages);
  passRejected : bool;
  resetBroken : bool;
  lookupBroken : bool;
  overOnceReset : bool;
  resetsDone : nat
}.

Definition wordRejected : Exception :=
  {| message := "Le mot qwx n'est pas dans le dictionnaire choisi.";
     status := Some 403%Z |}.

Definition notYourTurn : Exception :=
  {| message := "Ce n'est pas votre tour"; status := Some 403%Z |}.

Definition noGameFound : Exception :=
  {| message := "No game found"; status := Some 404%Z |}.

Definition noObjectives : Exception :=
  {| message := "No objectives"; status := Some 500%Z |}.

Definition botId : string := "virtual-player-7".

Definition botTurn : GameUpdateData :=
  {| round := Some {| playerData := {| Player.id := botId |} |};
     rest := [("board", "h8:chat")] |}.

Definition annTurn : GameUpdateData :=
  {| round := Some {| playerData := {| Player.id := "ann" |} |};
     rest := [] |}.

Definition resetUpdate : GameUpdateData :=
  {| round := None; rest := [("gameObjective", "reset")] |}.

Definition game : Game :=
  {| getPlayer := fun playerId isOpponent =>
       Ok {| Player.id := if String.eqb playerId "ann" then botId else "ann" |} |}.

Definition services : Services World :=
  {| playAction := fun g p data w =>
       match type data with
       | Some PASS =>
           if passRejected w then (Err wordRejected, w)
           else (Ok (Some botTurn, None), w)
       | _ => (answer w, w)
       end;
     isGameOver := fun g p w =>
       Ok (overOnceReset w && (0 <? resetsDone w)%nat);
     handleResetObjectives := fun g p w =>
       if resetBroken w then (Err noObjectives, w)
       else (Ok resetUpdate,
             {| answer := answer w; passRejected := passRejected w;
                resetBroken := resetBroken w; lookupBroken := lookupBroken w;
                overOnceReset := overOnceReset w;
                resetsDone := S (resetsDone w) |});
     getGame := fun g p w => if lookupBroken w then Err noGameFound else Ok game;
     delayFor := fun ms w => w;
     isIdVirtualPlayer := fun id => prefix "virtual-player" id |}.

Definition constants : Constants :=
  {| INVALID_WORD_TIMEOUT := 3000;
     IS_OPPONENT := true;
     SYSTEM_ID := "system";
     SYSTEM_ERROR_ID := "system-error";
     OPPONENT_PLAYED_INVALID_WORD := "Your opponent played an invalid word.";
     COMMAND_IS_INVALID := fun command =>
       ("Invalid command " ++
        match command with Some c => c | None => "undefined" end ++
        ": ")%string |}.

Definition errors : ControllerErrors :=
  {| SENDER_REQUIRED := "message sender is required";
     CONTENT_REQUIRED := "message content is required" |}.

Definition scored : FeedbackMessages :=
  {| localPlayerFeedback :=
       {| Fb.message := Some "You scored 12"; Fb.isClickable := Some true |};
     opponentFeedback :=
       {| Fb.message := Some "ann scored 12"; Fb.isClickable := None |};
     endGameFeedback := [] |}.

Definition silent : FeedbackMessages :=
  {| localPlayerFeedback :=
       {| Fb.message := Some ""; Fb.isClickable := Some true |};
     opponentFeedback :=
       {| Fb.message := Some ""; Fb.isClickable := None |};
     endGameFeedback := [] |}.

Definition lab (a : Result (option GameUpdateData * option FeedbackMessages))
    (pass reset lookup over : bool) : World :=
  {| answer := a; passRejected := pass; resetBroken := reset;
     lookupBroken := lookup; overOnceReset := over; resetsDone := 0 |}.

Definition place : ActionData :=
  {| type := Some PLACE; payload := Some [("tiles", "chat")];
     input := Some "!placer h8h chat" |}.

(** A server whose engine rejects every action, PASS included, for an
    invalid word, in a game that never ends. *)
Definition stubborn : Services unit :=
  {| playAction := fun g p data w => (Err wordRejected, w);
     isGameOver := fun g p w => Ok false;
     handleResetObjectives := fun g p w => (Ok resetUpdate, w);
     getGame := fun g p w => Ok game;
     delayFor := fun ms w => w;
     isIdVirtualPlayer := fun id => prefix "virtual-player" id |}.

(** The world [w] once its objectives have been reset. *)
Definition afterReset (w : World) : World :=
  {| answer := answer w; passRejected := passRejected w;
     resetBroken := resetBroken w; lookupBroken := lookupBroken w;
     overOnceReset := overOnceReset w; resetsDone := S (resetsDone w) |}.

Definition rejected : World := lab (Err wordRejected) false false false false.

Definition accepted : World :=
  lab (Ok (Some botTurn, Some scored)) false false false false.

Definition acceptedThenLost : World :=
  lab (Ok (Some botTurn, Some scored)) false false true false.

Definition refused : World := lab (Err notYourTurn) false false false false.

Definition chat : MessageBody :=
  {| bodySenderId := Some "mallory"; bodyContent := Some "hello";
     bodyGameId := "g2"; bodyIsClickable := Some true |}.

End Lab.

(** ** Properties of the controller *)

Section Properties.

Variable W : Type.
Variable svc : Services W.
Variable cst : Constants.

(** *** Running the monad *)

Lemma bind_normal {A B} (m : M W A) (k : A -> M W B) w a w1 t1 :
  m w = (Normal a, w1, t1) ->
  bind m k w = (completion (k a w1), world (k a w1), t1 ++ trace (k a w1)).
Proof.
  intros E. unfold bind. rewrite E.
  destruct (k a w1) as [[r w2] t2]. reflexivity.
Qed.

Lemma bind_abrupt {A B} (m : M W A) (k : A -> M W B) w e w1 t1 :
  m w = (Abrupt e, w1, t1) -> bind m k w = (Abrupt e, w1, t1).
Proof. intros E. unfold bind. rewrite E. reflexivity. Qed.

Lemma typeError_is_not_invalid_word :
  isWordNotInDictionaryError TypeError_length_of_undefined = false.
Proof. reflexivity. Qed.

(** *** Validation *)

Lemma handlePlayAction_invalid fuel g p data w :
  type data = None \/ payload data = None ->
  handlePlayAction svc cst fuel g p data w =
    (Abrupt (HttpException
               match type data with
               | None => "type is required"
               | Some _ => "payload is required"
               end (Some BAD_REQUEST)),
     w, []).
Proof.
  intros H.
  destruct fuel; simpl; destruct (type data); destruct (payload data);
    try reflexivity; destruct H; discriminate.
Qed.

(** C4. An action whose [type] or [payload] is absent is refused with a
    400 Bad Request; nothing is emitted, no service is called, the world
    is untouched. *)
Theorem missing_type_or_payload_is_bad_request :
  forall fuel g p data w,
    type data = None \/ payload data = None ->
    handlePlayAction svc cst fuel g p data w =
      (Abrupt (HttpException
                 match type data with
                 | None => "type is required"
                 | Some _ => "payload is required"
                 end (Some 400%Z)),
       w, []).
Proof.
  intros fuel g p data w H.
  exact (handlePlayAction_invalid fuel g p data w H).
Qed.

(** *** The shape of [handlePlayAction] once validation has passed *)

Lemma handlePlayAction_valid fuel g p data ty pl :
  type data = Some ty -> payload data = Some pl ->
  handlePlayAction svc cst fuel g p data =
    tryCatch (tryBlock svc cst g p data)
      (fun exception =>
         catchBlock svc cst (resubmission svc cst fuel g p) exception g p data).
Proof.
  intros Ht Hp. destruct fuel; simpl; rewrite Ht, Hp; reflexivity.
Qed.

Lemma tryCatch_abrupt {A} (m : M W A) h w e w1 t1 :
  m w = (Abrupt e, w1, t1) ->
  tryCatch m h w = (completion (h e w1), world (h e w1), t1 ++ trace (h e w1)).
Proof.
  intros E. unfold tryCatch. rewrite E.
  destruct (h e w1) as [[r w2] t2]. reflexivity.
Qed.

Lemma tryCatch_normal {A} (m : M W A) h w a w1 t1 :
  m w = (Normal a, w1, t1) -> tryCatch m h w = (Normal a, w1, t1).
Proof. intros E. unfold tryCatch. rewrite E. reflexivity. Qed.

(** *** Absent raw input *)

(** C10. With [type] and [payload] present and [input] absent, the read
    of [data.input.length] throws inside the [try] block: no 400 is
    produced and the engine is not called; the error is re-thrown for a
    virtual player and turned into a system-error chat message to the
    acting player otherwise. *)
Theorem absent_input_goes_through_error_handling :
  forall fuel g p ty pl w,
    let data := {| type := Some ty; payload := Some pl; input := None |} in
    handlePlayAction svc cst fuel g p data w =
      (if isIdVirtualPlayer svc p then
         (Abrupt (HttpException (message TypeError_length_of_undefined) None),
          w, [])
       else
         (Normal tt, w,
          [commandIsInvalidNotice cst TypeError_length_of_undefined None p g]))
    /\ (forall m, completion (handlePlayAction svc cst fuel g p data w)
                  <> Abrupt (HttpException m (Some BAD_REQUEST))).
Proof.
  intros fuel g p ty pl w data.
  assert (E : handlePlayAction svc cst fuel g p data w =
      (if isIdVirtualPlayer svc p then
         (Abrupt (HttpException (message TypeError_length_of_undefined) None),
          w, [])
       else
         (Normal tt, w,
          [commandIsInvalidNotice cst TypeError_length_of_undefined None p g]))).
  { rewrite (handlePlayAction_valid fuel g p data ty pl) by reflexivity.
    unfold tryCatch, tryBlock, bind, echoInput, catchBlock. simpl.
    destruct (isIdVirtualPlayer svc p); [reflexivity|].
    unfold bind, handleError. rewrite typeError_is_not_invalid_word.
    reflexivity. }
  split; [exact E|].
  intros m. rewrite E. destruct (isIdVirtualPlayer svc p); discriminate.
Qed.

(** *** What each step contributes to the trace *)

Lemma gameUpdate_ok g d w :
  triggerLookupOk svc g d w = true ->
  gameUpdate svc g d w =
    (Normal tt, w, EmitToRoom g (GameUpdate d) :: triggerTrace svc g d).
Proof.
  unfold triggerLookupOk, gameUpdate, triggerTrace, bind, emit, callGetGame.
  simpl. destruct (round d) as [r|]; [|reflexivity].
  destruct (isIdVirtualPlayer svc (Player.id (playerData r))); [|reflexivity].
  destruct (getGame svc g (Player.id (playerData r)) w); [reflexivity|].
  discriminate.
Qed.

(** [gameUpdate] always broadcasts first, never touches the world, and
    adds at most the trigger of a virtual player's turn. *)
Lemma gameUpdate_shape g d w :
  exists r t,
    gameUpdate svc g d w = (r, w, EmitToRoom g (GameUpdate d) :: t)
    /\ r <> Unfinished
    /\ forallb (fromSystem cst) t = true.
Proof.
  unfold gameUpdate, bind, emit, callGetGame. simpl.
  destruct (round d) as [r|].
  - destruct (isIdVirtualPlayer svc (Player.id (playerData r))).
    + destruct (getGame svc g (Player.id (playerData r)) w); simpl;
        eexists; eexists; (split; [reflexivity|]); split;
        try discriminate; reflexivity.
    + simpl. eexists; eexists; (split; [reflexivity|]); split;
        try discriminate; reflexivity.
  - simpl. eexists; eexists; (split; [reflexivity|]); split;
      try discriminate; reflexivity.
Qed.

(** [handleFeedback] never touches the world and emits only messages
    signed by the system sender. *)
Lemma handleFeedback_shape g p fb w :
  exists r t,
    handleFeedback svc cst g p fb w = (r, w, t)
    /\ r <> Unfinished
    /\ forallb (fromSystem cst) t = true.
Proof.
  unfold handleFeedback, bind, emit, callGetGame, callGetPlayer, ret.
  destruct (truthy (Fb.message (localPlayerFeedback fb)));
    destruct (truthy (Fb.message (opponentFeedback fb)));
    try destruct (getGame svc g p w) as [game|e]; simpl;
    try destruct (getPlayer game p (IS_OPPONENT cst)) as [o|e]; simpl;
    destruct (endGameFeedback fb); simpl;
    rewrite ?String.eqb_refl; simpl;
    eexists; eexists; (split; [reflexivity|]); split;
    try discriminate; simpl; rewrite ?String.eqb_refl; reflexivity.
Qed.

Lemma echoInput_ok g p data inp (w : W) :
  input data = Some inp ->
  echoInput g p data w = (Normal tt, w, echoTrace g p inp).
Proof.
  intros E. unfold echoInput, echoTrace. rewrite E.
  destruct (0 <? String.length inp)%nat; reflexivity.
Qed.

(** The [try] block, for an action with a raw input: the echo, then the
    engine call, then only system-side events; it stops by returning or by
    throwing. *)
Lemma tryBlock_shape g p data inp w :
  input data = Some inp ->
  exists r w1 t,
    tryBlock svc cst g p data w =
      (r, w1, echoTrace g p inp ++ PlayActionCall g p data :: t)
    /\ r <> Unfinished
    /\ forallb (fromSystem cst) t = true.
Proof.
  intros Hin. unfold tryBlock.
  rewrite (bind_normal _ _ _ _ _ _ (echoInput_ok g p data inp w Hin)).
  unfold completion, world, trace, bind, callPlayAction.
  destruct (playAction svc g p data w) as [[[u f]|e] w1]; simpl.
  - destruct u as [u|]; simpl.
    + destruct (gameUpdate_shape g u w1) as (r & t & E & Hr & Ht).
      rewrite E. destruct r as [[]|e|]; simpl; [| |contradiction].
      * destruct f as [f|]; simpl.
        -- destruct (handleFeedback_shape g p f w1) as (r' & t' & E' & Hr' & Ht').
           rewrite E'. simpl. eexists; eexists; eexists.
           split; [reflexivity|]. split; [exact Hr'|].
           simpl. rewrite forallb_app, Ht, Ht'. reflexivity.
        -- eexists; eexists; eexists. split; [reflexivity|].
           split; [discriminate|]. simpl. rewrite forallb_app, Ht. reflexivity.
      * eexists; eexists; eexists. split; [reflexivity|].
        split; [discriminate|]. simpl. exact Ht.
    + destruct f as [f|]; simpl.
      * destruct (handleFeedback_shape g p f w1) as (r' & t' & E' & Hr' & Ht').
        rewrite E'. simpl. eexists; eexists; eexists.
        split; [reflexivity|]. split; [exact Hr'|]. exact Ht'.
      * eexists; eexists; eexists. split; [reflexivity|].
        split; [discriminate|]. reflexivity.
  - eexists; eexists; eexists. split; [reflexivity|].
    split; [discriminate|]. reflexivity.
Qed.

(** The [try] block when the engine rejects the action. *)
Lemma tryBlock_engine_failure g p data inp w e w1 :
  input data = Some inp ->
  playAction svc g p data w = (Err e, w1) ->
  tryBlock svc cst g p data w =
    (Abrupt e, w1, echoTrace g p inp ++ [PlayActionCall g p data]).
Proof.
  intros Hin Hplay. unfold tryBlock.
  rewrite (bind_normal _ _ _ _ _ _ (echoInput_ok g p data inp w Hin)).
  unfold completion, world, trace, bind, callPlayAction.
  rewrite Hplay. reflexivity.
Qed.

(** *** [handleError] case by case *)

Lemma handleError_other_failure e i p g w :
  isWordNotInDictionaryError e = false ->
  handleError svc cst e i p g w =
    (Normal tt, w, [commandIsInvalidNotice cst e i p g]).
Proof. intros H. unfold handleError. rewrite H. reflexivity. Qed.

Lemma handleError_game_over e i p g w :
  isWordNotInDictionaryError e = true ->
  isGameOver svc g p (delayFor svc (INVALID_WORD_TIMEOUT cst) w) = Ok true ->
  handleError svc cst e i p g w =
    (Normal tt, delayFor svc (INVALID_WORD_TIMEOUT cst) w,
     [DelayFor (INVALID_WORD_TIMEOUT cst); IsGameOverCall g p]).
Proof.
  intros H Hover. unfold handleError, bind, awaitDelay, callIsGameOver.
  rewrite H, Hover. reflexivity.
Qed.

Lemma handleError_check_fails e i p g w e' :
  isWordNotInDictionaryError e = true ->
  isGameOver svc g p (delayFor svc (INVALID_WORD_TIMEOUT cst) w) = Err e' ->
  handleError svc cst e i p g w =
    (Abrupt e', delayFor svc (INVALID_WORD_TIMEOUT cst) w,
     [DelayFor (INVALID_WORD_TIMEOUT cst); IsGameOverCall g p]).
Proof.
  intros H Hover. unfold handleError, bind, awaitDelay, callIsGameOver.
  rewrite H, Hover. reflexivity.
Qed.

Lemma handleError_recovers e i p g w update w2 game opponent :
  isWordNotInDictionaryError e = true ->
  isGameOver svc g p (delayFor svc (INVALID_WORD_TIMEOUT cst) w) = Ok false ->
  handleResetObjectives svc g p (delayFor svc (INVALID_WORD_TIMEOUT cst) w)
    = (Ok update, w2) ->
  triggerLookupOk svc g update w2 = true ->
  getGame svc g p w2 = Ok game ->
  getPlayer game p (IS_OPPONENT cst) = Ok opponent ->
  handleError svc cst e i p g w =
    (Normal tt, w2,
     [DelayFor (INVALID_WORD_TIMEOUT cst); IsGameOverCall g p;
      ResetObjectivesCall g p; EmitToRoom g (GameUpdate update)]
     ++ triggerTrace svc g update
     ++ [opponentNotice cst (Player.id opponent) g;
         commandIsInvalidNotice cst e i p g]).
Proof.
  intros H Hover Hreset Htrig Hgame Hopp.
  unfold handleError. rewrite H.
  unfold bind at 1. unfold awaitDelay at 1.
  unfold bind at 1. unfold callIsGameOver at 1. rewrite Hover. simpl.
  unfold bind at 1. unfold callHandleResetObjectives at 1. rewrite Hreset. simpl.
  rewrite (bind_normal _ _ _ _ _ _ (gameUpdate_ok g update w2 Htrig)).
  unfold completion, world, trace, bind, callGetGame, callGetPlayer,
    notifyCommandIsInvalid, emit.
  rewrite Hgame. simpl. rewrite Hopp. simpl.
  reflexivity.
Qed.

(** *** The [catch] block case by case *)

Lemma catchBlock_virtual resubmit e g p data w :
  isIdVirtualPlayer svc p = true ->
  catchBlock svc cst resubmit e g p data w =
    (Abrupt (HttpException (message e) (status e)), w, []).
Proof. intros H. unfold catchBlock. rewrite H. reflexivity. Qed.

Lemma catchBlock_other_failure resubmit e g p data w :
  isIdVirtualPlayer svc p = false ->
  isWordNotInDictionaryError e = false ->
  catchBlock svc cst resubmit e g p data w =
    (Normal tt, w, [commandIsInvalidNotice cst e (input data) p g]).
Proof.
  intros Hv He. unfold catchBlock. rewrite Hv.
  rewrite (bind_normal _ _ _ _ _ _
             (handleError_other_failure e (input data) p g w He)).
  rewrite He. reflexivity.
Qed.

Lemma catchBlock_game_over resubmit e g p data w :
  isIdVirtualPlayer svc p = false ->
  isWordNotInDictionaryError e = true ->
  isGameOver svc g p (delayFor svc (INVALID_WORD_TIMEOUT cst) w) = Ok true ->
  catchBlock svc cst resubmit e g p data w =
    (Normal tt, delayFor svc (INVALID_WORD_TIMEOUT cst) w,
     [DelayFor (INVALID_WORD_TIMEOUT cst); IsGameOverCall g p;
      IsGameOverCall g p]).
Proof.
  intros Hv He Hover. unfold catchBlock. rewrite Hv.
  rewrite (bind_normal _ _ _ _ _ _
             (handleError_game_over e (input data) p g w He Hover)).
  rewrite He. unfold completion, world, trace, bind, callIsGameOver.
  rewrite Hover. reflexivity.
Qed.

Lemma catchBlock_check_fails resubmit e g p data w e' :
  isIdVirtualPlayer svc p = false ->
  isWordNotInDictionaryError e = true ->
  isGameOver svc g p (delayFor svc (INVALID_WORD_TIMEOUT cst) w) = Err e' ->
  catchBlock svc cst resubmit e g p data w =
    (Abrupt e', delayFor svc (INVALID_WORD_TIMEOUT cst) w,
     [DelayFor (INVALID_WORD_TIMEOUT cst); IsGameOverCall g p]).
Proof.
  intros Hv He Hover. unfold catchBlock. rewrite Hv.
  apply bind_abrupt. apply handleError_check_fails; assumption.
Qed.

Lemma catchBlock_recovers resubmit e g p data w update w2 game opponent :
  isIdVirtualPlayer svc p = false ->
  isWordNotInDictionaryError e = true ->
  isGameOver svc g p (delayFor svc (INVALID_WORD_TIMEOUT cst) w) = Ok false ->
  handleResetObjectives svc g p (delayFor svc (INVALID_WORD_TIMEOUT cst) w)
    = (Ok update, w2) ->
  triggerLookupOk svc g update w2 = true ->
  getGame svc g p w2 = Ok game ->
  getPlayer game p (IS_OPPONENT cst) = Ok opponent ->
  isGameOver svc g p w2 = Ok false ->
  catchBlock svc cst resubmit e g p data w =
    (completion (resubmit w2), world (resubmit w2),
     ([DelayFor (INVALID_WORD_TIMEOUT cst); IsGameOverCall g p;
       ResetObjectivesCall g p; EmitToRoom g (GameUpdate update)]
      ++ triggerTrace svc g update
      ++ [opponentNotice cst (Player.id opponent) g;
          commandIsInvalidNotice cst e (input data) p g])
     ++ IsGameOverCall g p :: trace (resubmit w2)).
Proof.
  intros Hv He Hover Hreset Htrig Hgame Hopp Hover2.
  unfold catchBlock. rewrite Hv.
  rewrite (bind_normal _ _ _ _ _ _
             (handleError_recovers e (input data) p g w update w2 game
                opponent He Hover Hreset Htrig Hgame Hopp)).
  rewrite He. unfold completion, world, trace, bind, callIsGameOver.
  rewrite Hover2. simpl.
  destruct (resubmit w2) as [[r w3] t3]. reflexivity.
Qed.

(** A dispatch that passed validation and whose engine call failed. *)
Lemma handlePlayAction_engine_failure fuel g p data ty pl inp w e w1 :
  type data = Some ty -> payload data = Some pl -> input data = Some inp ->
  playAction svc g p data w = (Err e, w1) ->
  handlePlayAction svc cst fuel g p data w =
    (completion (catchBlock svc cst (resubmission svc cst fuel g p) e g p data w1),
     world (catchBlock svc cst (resubmission svc cst fuel g p) e g p data w1),
     (echoTrace g p inp ++ [PlayActionCall g p data])
     ++ trace (catchBlock svc cst (resubmission svc cst fuel g p) e g p data w1)).
Proof.
  intros Ht Hp Hin Hplay.
  rewrite (handlePlayAction_valid fuel g p data ty pl Ht Hp).
  rewrite (tryCatch_abrupt _ _ _ _ _ _
             (tryBlock_engine_failure g p data inp w e w1 Hin Hplay)).
  reflexivity.
Qed.

(** *** Failure of a virtual player *)

(** C3. When the engine rejects the action of a virtual player, the catch
    block emits nothing and calls nothing: the trace of the dispatch stops
    at the engine call, and an exception with the message and the status
    of the engine's is thrown to the caller. *)
Theorem virtual_player_failure_is_rethrown :
  forall fuel g p data ty pl inp w e w1,
    type data = Some ty -> payload data = Some pl -> input data = Some inp ->
    isIdVirtualPlayer svc p = true ->
    playAction svc g p data w = (Err e, w1) ->
    exists thrown,
      handlePlayAction svc cst fuel g p data w =
        (Abrupt thrown, w1, echoTrace g p inp ++ [PlayActionCall g p data])
      /\ message thrown = message e
      /\ status thrown = status e
      /\ trace (handlePlayAction svc cst fuel g p data w)
         = trace (tryBlock svc cst g p data w).
Proof.
  intros fuel g p data ty pl inp w e w1 Ht Hp Hin Hv Hplay.
  exists (HttpException (message e) (status e)).
  assert (E : handlePlayAction svc cst fuel g p data w =
            (Abrupt (HttpException (message e) (status e)), w1,
             echoTrace g p inp ++ [PlayActionCall g p data])).
  { rewrite (handlePlayAction_engine_failure fuel g p data ty pl inp w e w1
               Ht Hp Hin Hplay).
    rewrite (catchBlock_virtual _ e g p data w1 Hv).
    unfold completion, world, trace. simpl. rewrite app_nil_r. reflexivity. }
  split; [exact E|]. split; [reflexivity|]. split; [reflexivity|].
  rewrite E, (tryBlock_engine_failure g p data inp w e w1 Hin Hplay).
  reflexivity.
Qed.

(** *** Invalid word when the game is over *)

(** C5. A human player's word is rejected and the game-over check after
    the delay answers true: after the engine call the controller only
    waits and checks; it resets no objectives, emits nothing (no update to
    the room, no notification to the opponent) and does not call the
    engine again (no PASS). *)
Theorem invalid_word_game_over_stops_recovery :
  forall fuel g p data ty pl inp w e w1,
    type data = Some ty -> payload data = Some pl -> input data = Some inp ->
    isIdVirtualPlayer svc p = false ->
    playAction svc g p data w = (Err e, w1) ->
    isWordNotInDictionaryError e = true ->
    isGameOver svc g p (delayFor svc (INVALID_WORD_TIMEOUT cst) w1) = Ok true ->
    exists after,
      handlePlayAction svc cst fuel g p data w =
        (Normal tt, delayFor svc (INVALID_WORD_TIMEOUT cst) w1,
         echoTrace g p inp ++ PlayActionCall g p data :: after)
      /\ after = [DelayFor (INVALID_WORD_TIMEOUT cst); IsGameOverCall g p;
                  IsGameOverCall g p]
      /\ countIf isResetObjectivesCall after = 0
      /\ countIf isUpdateBroadcast after = 0
      /\ countIf isEmission after = 0
      /\ countIf isPlayActionCall after = 0.
Proof.
  intros fuel g p data ty pl inp w e w1 Ht Hp Hin Hv Hplay He Hover.
  eexists. split.
  - rewrite (handlePlayAction_engine_failure fuel g p data ty pl inp w e w1
               Ht Hp Hin Hplay).
    rewrite (catchBlock_game_over _ e g p data w1 Hv He Hover).
    unfold completion, world, trace. simpl.
    rewrite <- app_assoc. reflexivity.
  - repeat split; reflexivity.
Qed.

(** C9. In the same situation the acting player gets no failure
    notification: [handleError] returns before its last statement, and
    nothing is delivered to any socket after the engine call.  For a
    failure that is not an invalid word, [handleError] always sends that
    notification. *)
Theorem invalid_word_game_over_skips_notification :
  forall fuel g p data ty pl inp w e w1,
    type data = Some ty -> payload data = Some pl -> input data = Some inp ->
    isIdVirtualPlayer svc p = false ->
    playAction svc g p data w = (Err e, w1) ->
    isWordNotInDictionaryError e = true ->
    isGameOver svc g p (delayFor svc (INVALID_WORD_TIMEOUT cst) w1) = Ok true ->
    handleError svc cst e (input data) p g w1 =
      (Normal tt, delayFor svc (INVALID_WORD_TIMEOUT cst) w1,
       [DelayFor (INVALID_WORD_TIMEOUT cst); IsGameOverCall g p])
    /\ (exists after,
          trace (handlePlayAction svc cst fuel g p data w) =
            echoTrace g p inp ++ PlayActionCall g p data :: after
          /\ countIf isSocketEmission after = 0
          /\ countIf (isErrorNoticeTo cst p) after = 0
          /\ ~ In (commandIsInvalidNotice cst e (input data) p g) after)
    /\ (forall e' i w',
          isWordNotInDictionaryError e' = false ->
          handleError svc cst e' i p g w' =
            (Normal tt, w', [commandIsInvalidNotice cst e' i p g])).
Proof.
  intros fuel g p data ty pl inp w e w1 Ht Hp Hin Hv Hplay He Hover.
  split; [apply handleError_game_over; assumption|].
  split; [|intros; apply handleError_other_failure; assumption].
  eexists. split.
  - rewrite (handlePlayAction_engine_failure fuel g p data ty pl inp w e w1
               Ht Hp Hin Hplay).
    rewrite (catchBlock_game_over _ e g p data w1 Hv He Hover).
    unfold completion, world, trace. simpl.
    rewrite <- app_assoc. reflexivity.
  - split; [reflexivity|]. split; [reflexivity|].
    unfold commandIsInvalidNotice. simpl.
    intros [H|[H|[H|[]]]]; discriminate.
Qed.

(** *** The game-over check itself fails *)

(** C6 (as the code has it). A human player's word is rejected and the
    game-over check after the delay throws: the exception leaves the
    dispatch; nothing is reset, emitted or resubmitted after the check. *)
Theorem game_over_check_failure_propagates :
  forall fuel g p data ty pl inp w e w1 e',
    type data = Some ty -> payload data = Some pl -> input data = Some inp ->
    isIdVirtualPlayer svc p = false ->
    playAction svc g p data w = (Err e, w1) ->
    isWordNotInDictionaryError e = true ->
    isGameOver svc g p (delayFor svc (INVALID_WORD_TIMEOUT cst) w1) = Err e' ->
    handlePlayAction svc cst fuel g p data w =
      (Abrupt e', delayFor svc (INVALID_WORD_TIMEOUT cst) w1,
       echoTrace g p inp
       ++ [PlayActionCall g p data; DelayFor (INVALID_WORD_TIMEOUT cst);
           IsGameOverCall g p]).
Proof.
  intros fuel g p data ty pl inp w e w1 e' Ht Hp Hin Hv Hplay He Hover.
  rewrite (handlePlayAction_engine_failure fuel g p data ty pl inp w e w1
             Ht Hp Hin Hplay).
  rewrite (catchBlock_check_fails _ e g p data w1 e' Hv He Hover).
  unfold completion, world, trace. simpl.
  rewrite <- app_assoc. reflexivity.
Qed.

(** *** Counting in traces *)

Lemma countIf_app f t1 t2 :
  countIf f (t1 ++ t2) = countIf f t1 + countIf f t2.
Proof. unfold countIf. rewrite filter_app, length_app. reflexivity. Qed.

Lemma countIf_none (P f : Event -> bool) t :
  (forall ev, P ev = true -> f ev = false) ->
  forallb P t = true -> countIf f t = 0.
Proof.
  intros Hpf. unfold countIf. induction t as [|ev t IH]; simpl; [reflexivity|].
  intros H. apply andb_true_iff in H. destruct H as [Hev Ht].
  rewrite (Hpf ev Hev). apply IH. exact Ht.
Qed.

Lemma fromSystem_not_service_call ev :
  fromSystem cst ev = true -> isServiceCall ev = false.
Proof. destruct ev as [s [m|d]|r [m|d]| | | | |]; simpl; congruence. Qed.

Lemma countIf_triggerTrace f g d :
  (forall d' g' p', f (TriggerVirtualPlayerTurn d' g' p') = false) ->
  countIf f (triggerTrace svc g d) = 0.
Proof.
  intros Hf. unfold triggerTrace, countIf.
  destruct (round d) as [r|]; [|reflexivity].
  destruct (isIdVirtualPlayer svc (Player.id (playerData r))); [|reflexivity].
  simpl. rewrite Hf. reflexivity.
Qed.

(** *** The resubmitted PASS *)

(** The PASS that the catch block resubmits for a human player, when it
    raises no invalid-word failure: one engine call, then only system-side
    events; it returns normally, whatever the fuel. *)
Lemma pass_dispatch_without_recovery fuel g p w :
  isIdVirtualPlayer svc p = false ->
  (forall e w1 t, tryBlock svc cst g p passAction w = (Abrupt e, w1, t) ->
                  isWordNotInDictionaryError e = false) ->
  exists w' t,
    handlePlayAction svc cst fuel g p passAction w =
      (Normal tt, w', PlayActionCall g p passAction :: t)
    /\ forallb (fromSystem cst) t = true.
Proof.
  intros Hv Hpass.
  rewrite (handlePlayAction_valid fuel g p passAction PASS []) by reflexivity.
  destruct (tryBlock_shape g p passAction "" w eq_refl)
    as (r & w1 & t & E & Hr & Ht).
  change (echoTrace g p "" ++ PlayActionCall g p passAction :: t)
    with (PlayActionCall g p passAction :: t) in E.
  destruct r as [[]|e|]; [| |contradiction].
  - rewrite (tryCatch_normal _ _ _ _ _ _ E). eauto.
  - rewrite (tryCatch_abrupt _ _ _ _ _ _ E).
    rewrite (catchBlock_other_failure _ e g p passAction w1 Hv
               (Hpass e w1 _ E)).
    unfold completion, world, trace. simpl.
    eexists; eexists. split; [reflexivity|].
    rewrite forallb_app, Ht. simpl. rewrite String.eqb_refl, orb_true_r.
    reflexivity.
Qed.

(** *** Recovery from an invalid word *)

(** C1. A human player's word is rejected and the game is not over (at
    both checks), the reset and the session lookups succeed, and the
    resubmitted PASS raises no invalid-word failure.  Then the dispatch
    returns normally with this trace: echo, engine call, the delay, the
    check, one reset whose update is broadcast once, one notification to
    the opponent with the fixed text from the system sender, the
    notification to the actor, the second check, and the dispatch of one
    PASS for the same game and player.  That PASS calls the engine once
    and is followed by no service call at all: no delay, no check, no
    reset, no further dispatch. *)
Theorem invalid_word_recovery_passes_once :
  forall fuel g p data ty pl inp w e w1 update w2 game opponent,
    type data = Some ty -> payload data = Some pl -> input data = Some inp ->
    isIdVirtualPlayer svc p = false ->
    playAction svc g p data w = (Err e, w1) ->
    isWordNotInDictionaryError e = true ->
    isGameOver svc g p (delayFor svc (INVALID_WORD_TIMEOUT cst) w1) = Ok false ->
    handleResetObjectives svc g p (delayFor svc (INVALID_WORD_TIMEOUT cst) w1)
      = (Ok update, w2) ->
    triggerLookupOk svc g update w2 = true ->
    getGame svc g p w2 = Ok game ->
    getPlayer game p (IS_OPPONENT cst) = Ok opponent ->
    isGameOver svc g p w2 = Ok false ->
    SYSTEM_ID cst <> SYSTEM_ERROR_ID cst ->
    (forall e' w' t', tryBlock svc cst g p passAction w2 = (Abrupt e', w', t') ->
                      isWordNotInDictionaryError e' = false) ->
    exists recovery w3 tpass,
      recovery =
        [DelayFor (INVALID_WORD_TIMEOUT cst); IsGameOverCall g p;
         ResetObjectivesCall g p; EmitToRoom g (GameUpdate update)]
        ++ triggerTrace svc g update
        ++ [opponentNotice cst (Player.id opponent) g;
            commandIsInvalidNotice cst e (input data) p g]
      /\ handlePlayAction svc cst (S fuel) g p data w =
           (Normal tt, w3,
            echoTrace g p inp ++ PlayActionCall g p data :: recovery
            ++ IsGameOverCall g p :: PlayActionCall g p passAction :: tpass)
      /\ handlePlayAction svc cst fuel g p passAction w2 =
           (Normal tt, w3, PlayActionCall g p passAction :: tpass)
      /\ countIf isResetObjectivesCall recovery = 1
      /\ countIf isUpdateBroadcast recovery = 1
      /\ countIf (isOpponentNotice cst) recovery = 1
      /\ countIf isPlayActionCall recovery = 0
      /\ countIf isServiceCall tpass = 0.
Proof.
  intros fuel g p data ty pl inp w e w1 update w2 game opponent
    Ht Hp Hin Hv Hplay He Hover Hreset Htrig Hgame Hopp Hover2 Hids Hpass.
  destruct (pass_dispatch_without_recovery fuel g p w2 Hv Hpass)
    as (w3 & tpass & Epass & Hsys).
  eexists; exists w3, tpass. split; [reflexivity|].
  split; [|split; [exact Epass|]].
  - rewrite (handlePlayAction_engine_failure (S fuel) g p data ty pl inp w e w1
               Ht Hp Hin Hplay).
    rewrite (catchBlock_recovers _ e g p data w1 update w2 game opponent
               Hv He Hover Hreset Htrig Hgame Hopp Hover2).
    unfold resubmission. rewrite Epass.
    unfold completion, world, trace. simpl.
    rewrite <- !app_assoc. reflexivity.
  - assert (Hneq : String.eqb (SYSTEM_ERROR_ID cst) (SYSTEM_ID cst) = false).
    { apply String.eqb_neq. congruence. }
    split; [|split; [|split; [|split]]].
    + rewrite !countIf_app, countIf_triggerTrace by reflexivity. reflexivity.
    + rewrite !countIf_app, countIf_triggerTrace by reflexivity. reflexivity.
    + rewrite !countIf_app, countIf_triggerTrace by reflexivity.
      unfold countIf. simpl. rewrite !String.eqb_refl, Hneq, andb_false_r.
      reflexivity.
    + rewrite !countIf_app, countIf_triggerTrace by reflexivity. reflexivity.
    + apply (countIf_none (fromSystem cst));
        [exact fromSystem_not_service_call | exact Hsys].
Qed.

(** *** Notifications to the acting player *)

(** C2 (as the code has it). When [handleError] handles an invalid word
    while the game is not over, the reset and the session lookups succeed
    and the opponent is another participant, its events are exactly: the
    delay, the game-over check, the reset, the broadcast of the reset
    update to the room, the trigger of a virtual player's turn if the
    update calls for one, the notification to the opponent, and last the
    notification to the acting player.  That last event is the only thing
    delivered to the acting player's socket, and so the only system-error
    message the acting player gets. *)
Theorem invalid_word_notifies_actor_once :
  forall e i p g w update w2 game opponent,
    isWordNotInDictionaryError e = true ->
    isGameOver svc g p (delayFor svc (INVALID_WORD_TIMEOUT cst) w) = Ok false ->
    handleResetObjectives svc g p (delayFor svc (INVALID_WORD_TIMEOUT cst) w)
      = (Ok update, w2) ->
    triggerLookupOk svc g update w2 = true ->
    getGame svc g p w2 = Ok game ->
    getPlayer game p (IS_OPPONENT cst) = Ok opponent ->
    Player.id opponent <> p ->
    handleError svc cst e i p g w =
      (Normal tt, w2,
       [DelayFor (INVALID_WORD_TIMEOUT cst); IsGameOverCall g p;
        ResetObjectivesCall g p; EmitToRoom g (GameUpdate update)]
       ++ triggerTrace svc g update
       ++ [opponentNotice cst (Player.id opponent) g;
           EmitToSocket p (NewMessage
             {| content := (COMMAND_IS_INVALID cst i ++ message e)%string;
                senderId := SYSTEM_ERROR_ID cst;
                gameId := g;
                isClickable := None |})])
    /\ countIf (isDeliveredTo p) (trace (handleError svc cst e i p g w)) = 1
    /\ countIf (isErrorNoticeTo cst p) (trace (handleError svc cst e i p g w)) = 1.
Proof.
  intros e i p g w update w2 game opponent
    He Hover Hreset Htrig Hgame Hopp Hother.
  assert (Hneq : String.eqb (Player.id opponent) p = false).
  { apply String.eqb_neq. exact Hother. }
  pose proof (handleError_recovers e i p g w update w2 game opponent
                He Hover Hreset Htrig Hgame Hopp) as E.
  split; [exact E|].
  rewrite E. unfold trace. cbn [snd].
  split.
  - rewrite !countIf_app, countIf_triggerTrace by reflexivity.
    unfold countIf. simpl. rewrite Hneq, String.eqb_refl. reflexivity.
  - rewrite !countIf_app, countIf_triggerTrace by reflexivity.
    unfold countIf. simpl. rewrite Hneq, !String.eqb_refl. reflexivity.
Qed.

(** *** End-game feedback *)

(** C8. A feedback whose local and opponent messages are absent and whose
    end-game feedback is ["A wins"], ["B loses"]: one message is broadcast
    to the room, with the two texts joined by ["<br>"] and the system
    sender; nothing is sent to a single socket. *)
Theorem end_game_feedback_is_broadcast_once :
  forall g p c1 c2 c3 c4 w,
    let feedback :=
      {| localPlayerFeedback := {| Fb.message := None; Fb.isClickable := c1 |};
         opponentFeedback := {| Fb.message := None; Fb.isClickable := c2 |};
         endGameFeedback :=
           [ {| Fb.message := Some "A wins"; Fb.isClickable := c3 |};
             {| Fb.message := Some "B loses"; Fb.isClickable := c4 |} ] |} in
    handleFeedback svc cst g p feedback w =
      (Normal tt, w,
       [EmitToRoom g (NewMessage
          {| content := "A wins<br>B loses";
             senderId := SYSTEM_ID cst;
             gameId := g;
             isClickable := None |})])
    /\ countIf isRoomEmission (trace (handleFeedback svc cst g p feedback w)) = 1
    /\ countIf isSocketEmission (trace (handleFeedback svc cst g p feedback w)) = 0.
Proof. intros. repeat split. Qed.

(** *** Who signs the messages of a dispatch *)

Lemma quiet_fromSystem ev : fromSystem cst ev = true -> quiet cst ev = true.
Proof. intros H. unfold quiet. rewrite H. reflexivity. Qed.

Lemma forallb_quiet_fromSystem t :
  forallb (fromSystem cst) t = true -> forallb (quiet cst) t = true.
Proof.
  induction t as [|ev t IH]; simpl; [reflexivity|].
  intros H. apply andb_true_iff in H. destruct H as [Hev Ht].
  rewrite (quiet_fromSystem ev Hev), (IH Ht). reflexivity.
Qed.

Lemma quiet_not_sentBy p ev :
  p <> SYSTEM_ID cst -> p <> SYSTEM_ERROR_ID cst ->
  quiet cst ev = true -> sentBy p ev = false.
Proof.
  intros H1 H2. unfold quiet.
  destruct ev as [s [m|d]|r [m|d]| | | | |]; simpl; try reflexivity;
    rewrite orb_false_r; intros H; apply orb_true_iff in H;
    apply String.eqb_neq; destruct H as [H|H];
    apply String.eqb_eq in H; congruence.
Qed.

Lemma handleError_quiet e i p g w :
  forallb (quiet cst) (trace (handleError svc cst e i p g w)) = true.
Proof.
  unfold handleError.
  destruct (isWordNotInDictionaryError e).
  - unfold bind at 1. unfold awaitDelay at 1.
    unfold bind at 1. unfold callIsGameOver at 1.
    destruct (isGameOver svc g p (delayFor svc (INVALID_WORD_TIMEOUT cst) w))
      as [[|]|e1]; simpl; try reflexivity.
    unfold bind at 1. unfold callHandleResetObjectives at 1.
    destruct (handleResetObjectives svc g p
                (delayFor svc (INVALID_WORD_TIMEOUT cst) w))
      as [[update|e2] w2]; simpl; try reflexivity.
    unfold bind at 1.
    destruct (gameUpdate_shape g update w2) as (r & t & E & Hr & Ht).
    rewrite E. apply forallb_quiet_fromSystem in Ht.
    destruct r as [[]|e3|]; simpl; [| exact Ht | contradiction].
    unfold bind, callGetGame, callGetPlayer, notifyCommandIsInvalid, emit.
    destruct (getGame svc g p w2) as [game|e4]; simpl;
      [| rewrite app_nil_r; exact Ht].
    destruct (getPlayer game p (IS_OPPONENT cst)) as [o|e5]; simpl;
      [| rewrite app_nil_r; exact Ht].
    rewrite forallb_app, Ht. unfold quiet. simpl.
    rewrite !String.eqb_refl, orb_true_r. reflexivity.
  - unfold notifyCommandIsInvalid, emit, trace, quiet. simpl.
    rewrite String.eqb_refl, orb_true_r. reflexivity.
Qed.

Lemma catchBlock_quiet resubmit e g p data w :
  (forall w', forallb (quiet cst) (trace (resubmit w')) = true) ->
  forallb (quiet cst) (trace (catchBlock svc cst resubmit e g p data w)) = true.
Proof.
  intros Hres. unfold catchBlock.
  destruct (isIdVirtualPlayer svc p); [reflexivity|].
  pose proof (handleError_quiet e (input data) p g w) as Hq.
  unfold bind at 1.
  destruct (handleError svc cst e (input data) p g w) as [[r w1] t1].
  unfold trace in Hq. cbn [snd] in Hq.
  destruct r as [[]|e1|]; [| exact Hq | exact Hq].
  destruct (isWordNotInDictionaryError e).
  - unfold bind, callIsGameOver.
    destruct (isGameOver svc g p w1) as [[|]|e2]; simpl;
      try (unfold trace; cbn [snd]; rewrite forallb_app, Hq; reflexivity).
    specialize (Hres w1). destruct (resubmit w1) as [[r3 w3] t3].
    unfold trace in *. cbn [snd] in *.
    rewrite forallb_app, Hq. simpl. exact Hres.
  - unfold ret, trace. cbn [snd]. rewrite app_nil_r. exact Hq.
Qed.

Lemma handlePlayAction_quiet_step fuel g p data w :
  (forall w', forallb (quiet cst) (trace (resubmission svc cst fuel g p w')) = true) ->
  input data = Some "" ->
  forallb (quiet cst) (trace (handlePlayAction svc cst fuel g p data w)) = true.
Proof.
  intros Hres Hin.
  destruct (type data) as [ty|] eqn:Ht;
    [| rewrite (handlePlayAction_invalid fuel g p data w
                  (or_introl Ht)); reflexivity].
  destruct (payload data) as [pl|] eqn:Hp;
    [| rewrite (handlePlayAction_invalid fuel g p data w
                  (or_intror Hp)); reflexivity].
  rewrite (handlePlayAction_valid fuel g p data ty pl Ht Hp).
  destruct (tryBlock_shape g p data "" w Hin) as (r & w1 & t & E & Hr & Hsys).
  change (echoTrace g p "" ++ PlayActionCall g p data :: t)
    with (PlayActionCall g p data :: t) in E.
  apply forallb_quiet_fromSystem in Hsys.
  destruct r as [[]|e|]; [| |contradiction].
  - rewrite (tryCatch_normal _ _ _ _ _ _ E). exact Hsys.
  - rewrite (tryCatch_abrupt _ _ _ _ _ _ E).
    unfold trace at 1. cbn [snd].
    rewrite forallb_app. apply andb_true_iff. split; [exact Hsys|].
    apply catchBlock_quiet. exact Hres.
Qed.

Lemma resubmission_quiet fuel g p :
  forall w, forallb (quiet cst) (trace (resubmission svc cst fuel g p w)) = true.
Proof.
  induction fuel as [|fuel IH]; intros w; [reflexivity|].
  simpl. apply handlePlayAction_quiet_step; [exact IH | reflexivity].
Qed.

(** A dispatch with an empty raw input emits no chat message but those
    of the two reserved senders. *)
Lemma handlePlayAction_quiet fuel g p data w :
  input data = Some "" ->
  forallb (quiet cst) (trace (handlePlayAction svc cst fuel g p data w)) = true.
Proof.
  intros Hin. apply handlePlayAction_quiet_step; [|exact Hin].
  apply resubmission_quiet.
Qed.

(** *** The echo *)

(** C7. For an action that passes validation, the trace of the dispatch
    begins with the echo of the raw input (one message to the player's
    socket, content the raw input, sender the player) when the raw input
    is not empty, and the engine call comes right after it; every update,
    feedback and error notification comes later.  With an empty raw input
    the trace begins with the engine call, and no chat message of the
    whole dispatch is signed by the player (whose id is not one of the two
    reserved senders). *)
Theorem raw_input_is_echoed_first :
  forall fuel g p data ty pl inp w,
    type data = Some ty -> payload data = Some pl -> input data = Some inp ->
    exists r w' t,
      handlePlayAction svc cst fuel g p data w =
        (r, w', echoTrace g p inp ++ PlayActionCall g p data :: t)
      /\ (inp <> "" ->
          echoTrace g p inp =
            [EmitToSocket p (NewMessage
               {| content := inp; senderId := p; gameId := g;
                  isClickable := None |})])
      /\ (inp = "" ->
          echoTrace g p inp = []
          /\ (p <> SYSTEM_ID cst -> p <> SYSTEM_ERROR_ID cst ->
              countIf (sentBy p) (PlayActionCall g p data :: t) = 0)).
Proof.
  intros fuel g p data ty pl inp w Ht Hp Hin.
  assert (Hshape : exists r w' t,
    handlePlayAction svc cst fuel g p data w =
      (r, w', echoTrace g p inp ++ PlayActionCall g p data :: t)).
  { rewrite (handlePlayAction_valid fuel g p data ty pl Ht Hp).
    destruct (tryBlock_shape g p data inp w Hin) as (r & w1 & t & E & Hr & _).
    destruct r as [[]|e|]; [| |contradiction].
    - rewrite (tryCatch_normal _ _ _ _ _ _ E). eauto.
    - rewrite (tryCatch_abrupt _ _ _ _ _ _ E).
      rewrite <- app_assoc. simpl. eauto. }
  destruct Hshape as (r & w' & t & E).
  exists r, w', t. split; [exact E|]. split.
  - intros Hne. unfold echoTrace.
    destruct inp as [|a inp']; [contradiction|reflexivity].
  - intros He. subst inp. split; [reflexivity|].
    intros H1 H2.
    pose proof (handlePlayAction_quiet fuel g p data w Hin) as Hq.
    rewrite E in Hq. unfold trace in Hq. cbn [snd] in Hq.
    apply (countIf_none (quiet cst));
      [intros ev; apply quiet_not_sentBy; assumption | exact Hq].
Qed.

End Properties.

(** ** The properties on the concrete server *)

Module ExampleRuns.

Import Example.

(** C4 on a request without [type]. *)
Lemma missing_type_witness :
  handlePlayAction services constants 3 "g1" "alice"
    {| type := None; payload := Some []; input := Some "!passer" |} running =
    (Abrupt (HttpException "type is required" (Some 400%Z)), running, []).
Proof.
  apply (missing_type_or_payload_is_bad_request World services constants
           3 "g1" "alice"
           {| type := None; payload := Some []; input := Some "!passer" |}
           running).
  left. reflexivity.
Defined.

(** C3 on a virtual player whose word is rejected. *)
Lemma virtual_player_witness :
  exists thrown,
    handlePlayAction services constants 1 "g1" "virtual-player-1" placeZzz
      running =
      (Abrupt thrown, running,
       echoTrace "g1" "virtual-player-1" "!placer h8h zzz"
       ++ [PlayActionCall "g1" "virtual-player-1" placeZzz])
    /\ message thrown = message wordRejected
    /\ status thrown = status wordRejected
    /\ trace (handlePlayAction services constants 1 "g1" "virtual-player-1"
                placeZzz running)
       = trace (tryBlock services constants "g1" "virtual-player-1" placeZzz
                  running).
Proof.
  apply (virtual_player_failure_is_rethrown World services constants
           1 "g1" "virtual-player-1" placeZzz PLACE [("tiles", "zzz")]
           "!placer h8h zzz" running wordRejected running);
    reflexivity.
Defined.

(** C5 on a finished game. *)
Lemma game_over_witness :
  exists after,
    handlePlayAction services constants 1 "g1" "alice" placeZzz finished =
      (Normal tt, delayFor services (INVALID_WORD_TIMEOUT constants) finished,
       echoTrace "g1" "alice" "!placer h8h zzz"
       ++ PlayActionCall "g1" "alice" placeZzz :: after)
    /\ after = [DelayFor (INVALID_WORD_TIMEOUT constants);
                IsGameOverCall "g1" "alice"; IsGameOverCall "g1" "alice"]
    /\ countIf isResetObjectivesCall after = 0
    /\ countIf isUpdateBroadcast after = 0
    /\ countIf isEmission after = 0
    /\ countIf isPlayActionCall after = 0.
Proof.
  apply (invalid_word_game_over_stops_recovery World services constants
           1 "g1" "alice" placeZzz PLACE [("tiles", "zzz")]
           "!placer h8h zzz" finished wordRejected finished);
    reflexivity.
Defined.

(** C9 on a finished game. *)
Lemma game_over_no_notice_witness :
  handleError services constants wordRejected (input placeZzz) "alice" "g1"
    finished =
    (Normal tt, delayFor services (INVALID_WORD_TIMEOUT constants) finished,
     [DelayFor (INVALID_WORD_TIMEOUT constants); IsGameOverCall "g1" "alice"])
  /\ (exists after,
        trace (handlePlayAction services constants 1 "g1" "alice" placeZzz
                 finished) =
          echoTrace "g1" "alice" "!placer h8h zzz"
          ++ PlayActionCall "g1" "alice" placeZzz :: after
        /\ countIf isSocketEmission after = 0
        /\ countIf (isErrorNoticeTo constants "alice") after = 0
        /\ ~ In (commandIsInvalidNotice constants wordRejected
                   (input placeZzz) "alice" "g1") after)
  /\ (forall e' i w',
        isWordNotInDictionaryError e' = false ->
        handleError services constants e' i "alice" "g1" w' =
          (Normal tt, w', [commandIsInvalidNotice constants e' i "alice" "g1"])).
Proof.
  apply (invalid_word_game_over_skips_notification World services constants
           1 "g1" "alice" placeZzz PLACE [("tiles", "zzz")]
           "!placer h8h zzz" finished wordRejected finished);
    reflexivity.
Defined.

(** C6: the session is deleted during the delay and the check throws. *)
Lemma deleted_session_witness :
  handlePlayAction services constants 1 "g1" "alice" placeZzz doomed =
    (Abrupt noGameFound,
     delayFor services (INVALID_WORD_TIMEOUT constants) doomed,
     echoTrace "g1" "alice" "!placer h8h zzz"
     ++ [PlayActionCall "g1" "alice" placeZzz;
         DelayFor (INVALID_WORD_TIMEOUT constants);
         IsGameOverCall "g1" "alice"]).
Proof.
  apply (game_over_check_failure_propagates World services constants
           1 "g1" "alice" placeZzz PLACE [("tiles", "zzz")]
           "!placer h8h zzz" doomed wordRejected doomed noGameFound);
    reflexivity.
Defined.

(** C6 as the specification words it fails here: the session is deleted
    while the delay is pending, the game-over check throws, and the
    dispatch throws instead of returning. *)
Lemma deleted_session_fails_the_dispatch :
  playAction services "g1" "alice" placeZzz doomed = (Err wordRejected, doomed)
  /\ isWordNotInDictionaryError wordRejected = true
  /\ isIdVirtualPlayer services "alice" = false
  /\ isGameOver services "g1" "alice"
       (delayFor services (INVALID_WORD_TIMEOUT constants) doomed)
     = Err noGameFound
  /\ ~ dispatchReturns services constants 1 "g1" "alice" placeZzz doomed.
Proof.
  repeat split.
  intros (w' & t & H). vm_compute in H. discriminate H.
Qed.

(** C2 on a running game. *)
Lemma one_notice_witness :
  handleError services constants wordRejected (Some "!placer h8h zzz")
    "alice" "g1" running =
    (Normal tt,
     {| over := false; alive := true; deletedDuringDelay := false;
        resets := 1 |},
     [DelayFor (INVALID_WORD_TIMEOUT constants); IsGameOverCall "g1" "alice";
      ResetObjectivesCall "g1" "alice"; EmitToRoom "g1" (GameUpdate resetUpdate)]
     ++ triggerTrace services "g1" resetUpdate
     ++ [opponentNotice constants (Player.id {| Player.id := "bob" |}) "g1";
         EmitToSocket "alice" (NewMessage
           {| content :=
                (COMMAND_IS_INVALID constants (Some "!placer h8h zzz")
                 ++ message wordRejected)%string;
              senderId := SYSTEM_ERROR_ID constants;
              gameId := "g1";
              isClickable := None |})])
  /\ countIf (isDeliveredTo "alice")
       (trace (handleError services constants wordRejected
                 (Some "!placer h8h zzz") "alice" "g1" running)) = 1
  /\ countIf (isErrorNoticeTo constants "alice")
       (trace (handleError services constants wordRejected
                 (Some "!placer h8h zzz") "alice" "g1" running)) = 1.
Proof.
  apply (invalid_word_notifies_actor_once World services constants
           wordRejected (Some "!placer h8h zzz") "alice" "g1" running
           resetUpdate
           {| over := false; alive := true; deletedDuringDelay := false;
              resets := 1 |}
           game {| Player.id := "bob" |});
    try reflexivity.
  discriminate.
Defined.

(** C2 as the specification words it fails here: the acting player gets
    one system-error message, not two. *)
Lemma actor_gets_one_notice_not_two :
  isWordNotInDictionaryError wordRejected = true
  /\ isIdVirtualPlayer services "alice" = false
  /\ countIf (isErrorNoticeTo constants "alice")
       (trace (handleError services constants wordRejected
                 (Some "!placer h8h zzz") "alice" "g1" running)) = 1
  /\ ~ actorGetsTwoErrorNotices services constants wordRejected
         (Some "!placer h8h zzz") "alice" "g1" running.
Proof.
  repeat split.
  unfold actorGetsTwoErrorNotices. vm_compute. discriminate.
Qed.

(** C1 on a running game. *)
Lemma recovery_witness :
  exists recovery w3 tpass,
    recovery =
      [DelayFor (INVALID_WORD_TIMEOUT constants); IsGameOverCall "g1" "alice";
       ResetObjectivesCall "g1" "alice"; EmitToRoom "g1" (GameUpdate resetUpdate)]
      ++ triggerTrace services "g1" resetUpdate
      ++ [opponentNotice constants (Player.id {| Player.id := "bob" |}) "g1";
          commandIsInvalidNotice constants wordRejected (input placeZzz)
            "alice" "g1"]
    /\ handlePlayAction services constants 1 "g1" "alice" placeZzz running =
         (Normal tt, w3,
          echoTrace "g1" "alice" "!placer h8h zzz"
          ++ PlayActionCall "g1" "alice" placeZzz :: recovery
          ++ IsGameOverCall "g1" "alice"
             :: PlayActionCall "g1" "alice" passAction :: tpass)
    /\ handlePlayAction services constants 0 "g1" "alice" passAction
         {| over := false; alive := true; deletedDuringDelay := false;
            resets := 1 |} =
         (Normal tt, w3, PlayActionCall "g1" "alice" passAction :: tpass)
    /\ countIf isResetObjectivesCall recovery = 1
    /\ countIf isUpdateBroadcast recovery = 1
    /\ countIf (isOpponentNotice constants) recovery = 1
    /\ countIf isPlayActionCall recovery = 0
    /\ countIf isServiceCall tpass = 0.
Proof.
  apply (invalid_word_recovery_passes_once World services constants
           0 "g1" "alice" placeZzz PLACE [("tiles", "zzz")]
           "!placer h8h zzz" running wordRejected running resetUpdate
           {| over := false; alive := true; deletedDuringDelay := false;
              resets := 1 |}
           game {| Player.id := "bob" |});
    try reflexivity.
  - discriminate.
  - intros e' w' t' H. vm_compute in H. discriminate H.
Defined.

(** C7 on a typed command and on the resubmitted PASS. *)
Lemma echo_witness :
  (exists r w' t,
     handlePlayAction services constants 1 "g1" "alice" placeZzz running =
       (r, w', echoTrace "g1" "alice" "!placer h8h zzz"
               ++ PlayActionCall "g1" "alice" placeZzz :: t)
     /\ ("!placer h8h zzz" <> "" ->
         echoTrace "g1" "alice" "!placer h8h zzz" =
           [EmitToSocket "alice" (NewMessage
              {| content := "!placer h8h zzz"; senderId := "alice";
                 gameId := "g1"; isClickable := None |})])
     /\ ("!placer h8h zzz" = "" ->
         echoTrace "g1" "alice" "!placer h8h zzz" = []
         /\ ("alice" <> SYSTEM_ID constants ->
             "alice" <> SYSTEM_ERROR_ID constants ->
             countIf (sentBy "alice")
               (PlayActionCall "g1" "alice" placeZzz :: t) = 0)))
  /\ (exists r w' t,
        handlePlayAction services constants 1 "g1" "alice" passAction running =
          (r, w', echoTrace "g1" "alice" ""
                  ++ PlayActionCall "g1" "alice" passAction :: t)
        /\ ("" <> "" ->
            echoTrace "g1" "alice" "" =
              [EmitToSocket "alice" (NewMessage
                 {| content := ""; senderId := "alice";
                    gameId := "g1"; isClickable := None |})])
        /\ ("" = "" ->
            echoTrace "g1" "alice" "" = []
            /\ ("alice" <> SYSTEM_ID constants ->
                "alice" <> SYSTEM_ERROR_ID constants ->
                countIf (sentBy "alice")
                  (PlayActionCall "g1" "alice" passAction :: t) = 0))).
Proof.
  split.
  - apply (raw_input_is_echoed_first World services constants
             1 "g1" "alice" placeZzz PLACE [("tiles", "zzz")]
             "!placer h8h zzz" running); reflexivity.
  - apply (raw_input_is_echoed_first World services constants
             1 "g1" "alice" passAction PASS [] "" running); reflexivity.
Defined.

End ExampleRuns.

(** ** Further properties of the controller *)

Section MoreProperties.

Variable W : Type.
Variable svc : Services W.
Variable cst : Constants.
Variable errs : ControllerErrors.

(** *** [gameUpdate] *)

(** X1. An update whose round belongs to a virtual player, with the
    session found: the update is broadcast to the room, then the virtual
    player's turn is triggered once, with that update; the world is not
    touched. *)
Theorem gameUpdate_virtual_round_triggers_once :
  forall g d r w game,
    round d = Some r ->
    isIdVirtualPlayer svc (Player.id (playerData r)) = true ->
    getGame svc g (Player.id (playerData r)) w = Ok game ->
    gameUpdate svc g d w =
      (Normal tt, w,
       [EmitToRoom g (GameUpdate d);
        TriggerVirtualPlayerTurn d g (Player.id (playerData r))]).
Proof.
  intros g d r w game Hr Hv Hg.
  unfold gameUpdate, bind, emit, callGetGame. simpl.
  rewrite Hr, Hv, Hg. reflexivity.
Qed.

(** X2. The same update when the session lookup throws: the broadcast has
    been made, no turn is triggered, and the exception leaves
    [gameUpdate]. *)
Theorem gameUpdate_lookup_failure_follows_broadcast :
  forall g d r w e,
    round d = Some r ->
    isIdVirtualPlayer svc (Player.id (playerData r)) = true ->
    getGame svc g (Player.id (playerData r)) w = Err e ->
    gameUpdate svc g d w = (Abrupt e, w, [EmitToRoom g (GameUpdate d)])
    /\ countIf isTrigger (trace (gameUpdate svc g d w)) = 0.
Proof.
  intros g d r w e Hr Hv Hg.
  assert (E : gameUpdate svc g d w =
              (Abrupt e, w, [EmitToRoom g (GameUpdate d)])).
  { unfold gameUpdate, bind, emit, callGetGame. simpl.
    rewrite Hr, Hv, Hg. reflexivity. }
  split; [exact E|]. rewrite E. reflexivity.
Qed.

(** X3. An update with no round, or whose round belongs to a human: only
    the broadcast; the session is not consulted, so the call returns
    whatever the state of the session. *)
Theorem gameUpdate_human_round_only_broadcasts :
  forall g d w,
    roundIsVirtual svc d = false ->
    gameUpdate svc g d w = (Normal tt, w, [EmitToRoom g (GameUpdate d)]).
Proof.
  intros g d w H. unfold roundIsVirtual in H.
  unfold gameUpdate, bind, emit, callGetGame. simpl.
  destruct (round d) as [r|]; [rewrite H|]; reflexivity.
Qed.

(** *** [handleFeedback] *)

(** X4. A feedback message that is absent or the empty string is not
    sent.  With no end-game feedback either, [handleFeedback] emits
    nothing and does not consult the session. *)
Theorem handleFeedback_falsy_messages_send_nothing :
  forall g p fb w,
    truthy (Fb.message (localPlayerFeedback fb)) = false ->
    truthy (Fb.message (opponentFeedback fb)) = false ->
    endGameFeedback fb = [] ->
    handleFeedback svc cst g p fb w = (Normal tt, w, []).
Proof.
  intros g p fb w Hl Ho He.
  unfold handleFeedback, bind. rewrite Hl, Ho, He. reflexivity.
Qed.

(** X5. When the opponent's message is to be sent and the session lookup
    throws, the local player's message (if any) has already been
    delivered, the end-game broadcast is not made, and the exception
    leaves [handleFeedback]. *)
Theorem handleFeedback_opponent_lookup_failure :
  forall g p fb w e,
    truthy (Fb.message (opponentFeedback fb)) = true ->
    getGame svc g p w = Err e ->
    handleFeedback svc cst g p fb w =
      (Abrupt e, w,
       if truthy (Fb.message (localPlayerFeedback fb)) then
         [EmitToSocket p (NewMessage
            {| content := orEmpty (Fb.message (localPlayerFeedback fb));
               senderId := SYSTEM_ID cst;
               gameId := g;
               isClickable := Fb.isClickable (localPlayerFeedback fb) |})]
       else [])
    /\ countIf isRoomEmission (trace (handleFeedback svc cst g p fb w)) = 0.
Proof.
  intros g p fb w e Ho Hg.
  assert (E : handleFeedback svc cst g p fb w =
      (Abrupt e, w,
       if truthy (Fb.message (localPlayerFeedback fb)) then
         [EmitToSocket p (NewMessage
            {| content := orEmpty (Fb.message (localPlayerFeedback fb));
               senderId := SYSTEM_ID cst;
               gameId := g;
               isClickable := Fb.isClickable (localPlayerFeedback fb) |})]
       else [])).
  { unfold handleFeedback, bind, emit, callGetGame, ret. rewrite Ho.
    destruct (truthy (Fb.message (localPlayerFeedback fb))); simpl;
      rewrite Hg; reflexivity. }
  split; [exact E|]. rewrite E.
  destruct (truthy (Fb.message (localPlayerFeedback fb))); reflexivity.
Qed.

(** X6. Whatever the feedback and the session, [handleFeedback] emits at
    most two messages to sockets and at most one to the room, leaves the
    world as it is, and the room message comes last. *)
Theorem handleFeedback_emits_at_most_three :
  forall g p fb w,
    world (handleFeedback svc cst g p fb w) = w
    /\ countIf isSocketEmission (trace (handleFeedback svc cst g p fb w)) <= 2
    /\ countIf isRoomEmission (trace (handleFeedback svc cst g p fb w)) <= 1
    /\ (forall t1 ev t2,
          trace (handleFeedback svc cst g p fb w) = t1 ++ ev :: t2 ->
          isRoomEmission ev = true -> t2 = []).
Proof.
  intros g p fb w.
  unfold handleFeedback, bind, emit, callGetGame, callGetPlayer, ret.
  destruct (truthy (Fb.message (localPlayerFeedback fb)));
    destruct (truthy (Fb.message (opponentFeedback fb)));
    try destruct (getGame svc g p w) as [game|e]; simpl;
    try destruct (getPlayer game p (IS_OPPONENT cst)) as [o|e]; simpl;
    destruct (endGameFeedback fb); simpl;
    (split; [reflexivity|]); (split; [unfold countIf; simpl; auto|]);
    (split; [unfold countIf; simpl; auto|]);
    intros t1 ev t2 Ht Hev;
    repeat (destruct t1 as [|? t1]; simpl in Ht;
            [ injection Ht as <- <-; try discriminate Hev; reflexivity
            | injection Ht as _ Ht ]);
    try discriminate Ht;
    destruct t1; discriminate Ht.
Qed.

(** *** Dispatch: the engine accepts the action *)

Lemma string_append_assoc (a b c : string) :
  ((a ++ b) ++ c = a ++ b ++ c)%string.
Proof. induction a as [|x a IH]; simpl; [reflexivity|]. rewrite IH. reflexivity. Qed.

Lemma fold_left_append_front {A} (h : A -> string) (sep : string) :
  forall (items : list A) (a text : string),
    (a ++ fold_left (fun t item => t ++ sep ++ h item) items text)%string
    = fold_left (fun t item => (t ++ sep ++ h item)%string) items
        (a ++ text)%string.
Proof.
  induction items as [|y items IH]; intros a text; simpl; [reflexivity|].
  rewrite IH, string_append_assoc. reflexivity.
Qed.

(** [join] of the mapped items, read from left to right. *)
Lemma join_map_fold_left {A} (h : A -> string) (sep : string) :
  forall (items : list A) (first : A),
    join sep (map h (first :: items))
    = fold_left (fun t item => (t ++ sep ++ h item)%string) items (h first).
Proof.
  unfold join.
  induction items as [|y items IH]; intros first; [reflexivity|].
  change (String.concat sep (map h (first :: y :: items)))
    with (h first ++ sep ++ String.concat sep (map h (y :: items)))%string.
  rewrite IH. simpl.
  rewrite !fold_left_append_front. reflexivity.
Qed.

Lemma truthy_orEmpty (o : option string) :
  truthy o = negb (String.eqb (orEmpty o) "").
Proof. destruct o; reflexivity. Qed.

(** [handleFeedback] when the opponent is found. *)
Lemma handleFeedback_ok g p fb w game opponent :
  getGame svc g p w = Ok game ->
  getPlayer game p (IS_OPPONENT cst) = Ok opponent ->
  handleFeedback svc cst g p fb w =
    (Normal tt, w, feedbackTrace cst g p (Player.id opponent) fb).
Proof.
  intros Hgame Hopp.
  unfold handleFeedback, feedbackTrace, bind, emit, callGetGame,
    callGetPlayer, ret.
  rewrite <- !truthy_orEmpty.
  destruct (endGameFeedback fb) as [|first others]; cbv beta iota;
    rewrite <- ?(join_map_fold_left
                   (fun item => orEmpty (Fb.message item)) "<br>" others first);
    destruct (truthy (Fb.message (localPlayerFeedback fb)));
    destruct (truthy (Fb.message (opponentFeedback fb)));
    rewrite ?Hgame; simpl; rewrite ?Hopp; reflexivity.
Qed.

Lemma tryBlock_engine_success g p data inp w u fb w1 game opponent :
  input data = Some inp ->
  playAction svc g p data w = (Ok (Some u, Some fb), w1) ->
  triggerLookupOk svc g u w1 = true ->
  getGame svc g p w1 = Ok game ->
  getPlayer game p (IS_OPPONENT cst) = Ok opponent ->
  tryBlock svc cst g p data w =
    (Normal tt, w1,
     echoTrace g p inp ++ PlayActionCall g p data
       :: EmitToRoom g (GameUpdate u) :: triggerTrace svc g u
       ++ feedbackTrace cst g p (Player.id opponent) fb).
Proof.
  intros Hin Hplay Htrig Hgame Hopp. unfold tryBlock.
  rewrite (bind_normal W _ _ _ _ _ _ (echoInput_ok W g p data inp w Hin)).
  unfold completion, world, trace, bind, callPlayAction.
  rewrite Hplay. simpl.
  rewrite (gameUpdate_ok W svc g u w1 Htrig),
    (handleFeedback_ok g p fb w1 game opponent Hgame Hopp).
  reflexivity.
Qed.

(** X7. An accepted action with an update and a feedback, the session
    lookups succeeding: the dispatch returns, and its events are, in this
    order, the echo, the engine call, the broadcast of the update, the
    trigger of a virtual player's turn if the update calls for one, then
    the feedback: the local message to the player, the opponent's message
    to the opponent, and the end-game messages joined with ["<br>"] and
    broadcast to the room, each from the system sender and each only if
    it is not empty.  Nothing follows; the world is the one the engine
    left. *)
Theorem accepted_action_broadcasts_then_routes :
  forall fuel g p data ty pl inp w u fb w1 game opponent,
    type data = Some ty -> payload data = Some pl -> input data = Some inp ->
    playAction svc g p data w = (Ok (Some u, Some fb), w1) ->
    triggerLookupOk svc g u w1 = true ->
    getGame svc g p w1 = Ok game ->
    getPlayer game p (IS_OPPONENT cst) = Ok opponent ->
    handlePlayAction svc cst fuel g p data w =
      (Normal tt, w1,
       echoTrace g p inp ++ PlayActionCall g p data
         :: EmitToRoom g (GameUpdate u) :: triggerTrace svc g u
         ++ feedbackTrace cst g p (Player.id opponent) fb).
Proof.
  intros fuel g p data ty pl inp w u fb w1 game opponent
    Ht Hp Hin Hplay Htrig Hgame Hopp.
  rewrite (handlePlayAction_valid W svc cst fuel g p data ty pl Ht Hp).
  rewrite (tryCatch_normal W _ _ _ _ _ _
             (tryBlock_engine_success g p data inp w u fb w1 game opponent
                Hin Hplay Htrig Hgame Hopp)).
  reflexivity.
Qed.

(** X8. An accepted action for which the engine returns neither update
    nor feedback: after the echo and the engine call nothing is emitted,
    and the session is not consulted. *)
Theorem accepted_action_without_result_is_silent :
  forall fuel g p data ty pl inp w w1,
    type data = Some ty -> payload data = Some pl -> input data = Some inp ->
    playAction svc g p data w = (Ok (None, None), w1) ->
    handlePlayAction svc cst fuel g p data w =
      (Normal tt, w1, echoTrace g p inp ++ [PlayActionCall g p data]).
Proof.
  intros fuel g p data ty pl inp w w1 Ht Hp Hin Hplay.
  rewrite (handlePlayAction_valid W svc cst fuel g p data ty pl Ht Hp).
  assert (Htry : tryBlock svc cst g p data w =
            (Normal tt, w1, echoTrace g p inp ++ [PlayActionCall g p data])).
  { unfold tryBlock.
    rewrite (bind_normal W _ _ _ _ _ _ (echoInput_ok W g p data inp w Hin)).
    unfold completion, world, trace, bind, callPlayAction.
    rewrite Hplay. reflexivity. }
  rewrite (tryCatch_normal W _ _ _ _ _ _ Htry). reflexivity.
Qed.

(** *** Dispatch: failures of a human player that are not an invalid word *)

Lemma human_failure_in_try_block fuel g p data ty pl w e w1 t :
  type data = Some ty -> payload data = Some pl ->
  isIdVirtualPlayer svc p = false ->
  tryBlock svc cst g p data w = (Abrupt e, w1, t) ->
  isWordNotInDictionaryError e = false ->
  handlePlayAction svc cst fuel g p data w =
    (Normal tt, w1, t ++ [commandIsInvalidNotice cst e (input data) p g]).
Proof.
  intros Ht Hp Hv Htry He.
  rewrite (handlePlayAction_valid W svc cst fuel g p data ty pl Ht Hp).
  rewrite (tryCatch_abrupt W _ _ _ _ _ _ Htry).
  rewrite (catchBlock_other_failure W svc cst _ e g p data w1 Hv He).
  reflexivity.
Qed.

(** X9. The engine rejects a human player's action for another reason
    than an invalid word: the dispatch returns normally, whatever the
    fuel; after the engine call the only event is one system-error
    message to the player, made of [COMMAND_IS_INVALID(input)] and the
    failure's message.  No delay, no check, no reset, no second engine
    call. *)
Theorem human_other_failure_is_absorbed :
  forall fuel g p data ty pl inp w e w1,
    type data = Some ty -> payload data = Some pl -> input data = Some inp ->
    isIdVirtualPlayer svc p = false ->
    playAction svc g p data w = (Err e, w1) ->
    isWordNotInDictionaryError e = false ->
    handlePlayAction svc cst fuel g p data w =
      (Normal tt, w1,
       echoTrace g p inp
       ++ [PlayActionCall g p data;
           commandIsInvalidNotice cst e (Some inp) p g]).
Proof.
  intros fuel g p data ty pl inp w e w1 Ht Hp Hin Hv Hplay He.
  rewrite (human_failure_in_try_block fuel g p data ty pl w e w1 _ Ht Hp Hv
             (tryBlock_engine_failure W svc cst g p data inp w e w1 Hin Hplay)
             He).
  rewrite Hin, <- app_assoc. reflexivity.
Qed.

(** X10. The engine accepts a human player's action, the update gives the
    turn to a virtual player, and the session lookup made for the trigger
    throws (not an invalid word): the update has been broadcast, the
    feedback is never routed, and the player is told that the command is
    invalid, with the message of the lookup failure.  The dispatch
    returns normally. *)
Theorem lookup_failure_after_accepted_action_is_reported_as_invalid :
  forall fuel g p data ty pl inp w u ofb w1 r e,
    type data = Some ty -> payload data = Some pl -> input data = Some inp ->
    isIdVirtualPlayer svc p = false ->
    playAction svc g p data w = (Ok (Some u, ofb), w1) ->
    round u = Some r ->
    isIdVirtualPlayer svc (Player.id (playerData r)) = true ->
    getGame svc g (Player.id (playerData r)) w1 = Err e ->
    isWordNotInDictionaryError e = false ->
    handlePlayAction svc cst fuel g p data w =
      (Normal tt, w1,
       echoTrace g p inp
       ++ [PlayActionCall g p data; EmitToRoom g (GameUpdate u);
           commandIsInvalidNotice cst e (Some inp) p g]).
Proof.
  intros fuel g p data ty pl inp w u ofb w1 r e
    Ht Hp Hin Hv Hplay Hr Hrv Hg He.
  assert (Htry : tryBlock svc cst g p data w =
            (Abrupt e, w1,
             echoTrace g p inp
             ++ [PlayActionCall g p data; EmitToRoom g (GameUpdate u)])).
  { unfold tryBlock.
    rewrite (bind_normal W _ _ _ _ _ _ (echoInput_ok W g p data inp w Hin)).
    unfold completion, world, trace, bind, callPlayAction.
    rewrite Hplay. simpl.
    unfold gameUpdate, bind, emit, callGetGame. simpl.
    rewrite Hr, Hrv, Hg. reflexivity. }
  rewrite (human_failure_in_try_block fuel g p data ty pl w e w1 _ Ht Hp Hv
             Htry He).
  rewrite Hin, <- app_assoc. reflexivity.
Qed.

(** *** Dispatch: the catch block for a virtual player *)

(** X11. For a virtual player and an action that passes validation, the
    catch block adds nothing: the dispatch has the events and the final
    world of the [try] block, whatever happens in it, and it throws, with
    the same message and status, exactly when the [try] block throws. *)
Theorem virtual_player_catch_adds_nothing :
  forall fuel g p data ty pl w,
    type data = Some ty -> payload data = Some pl ->
    isIdVirtualPlayer svc p = true ->
    trace (handlePlayAction svc cst fuel g p data w)
      = trace (tryBlock svc cst g p data w)
    /\ world (handlePlayAction svc cst fuel g p data w)
       = world (tryBlock svc cst g p data w)
    /\ completion (handlePlayAction svc cst fuel g p data w)
       = match completion (tryBlock svc cst g p data w) with
         | Abrupt e => Abrupt (HttpException (message e) (status e))
         | other => other
         end.
Proof.
  intros fuel g p data ty pl w Ht Hp Hv.
  rewrite (handlePlayAction_valid W svc cst fuel g p data ty pl Ht Hp).
  unfold tryCatch.
  destruct (tryBlock svc cst g p data w) as [[[[]|e|] w1] t1];
    try (repeat split; reflexivity).
  rewrite (catchBlock_virtual W svc cst _ e g p data w1 Hv).
  unfold trace, world, completion. simpl. rewrite app_nil_r.
  repeat split; reflexivity.
Qed.

(** *** Dispatch: a recovery that does not run to its end *)

(** X12. A human player's word is rejected, the game is not over, and
    the reset of the objectives throws: the exception leaves the
    dispatch.  Nothing is broadcast, neither player is notified, and no
    PASS is submitted. *)
Theorem reset_failure_leaves_the_dispatch :
  forall fuel g p data ty pl inp w e w1 e' w2,
    type data = Some ty -> payload data = Some pl -> input data = Some inp ->
    isIdVirtualPlayer svc p = false ->
    playAction svc g p data w = (Err e, w1) ->
    isWordNotInDictionaryError e = true ->
    isGameOver svc g p (delayFor svc (INVALID_WORD_TIMEOUT cst) w1) = Ok false ->
    handleResetObjectives svc g p (delayFor svc (INVALID_WORD_TIMEOUT cst) w1)
      = (Err e', w2) ->
    handlePlayAction svc cst fuel g p data w =
      (Abrupt e', w2,
       echoTrace g p inp
       ++ [PlayActionCall g p data; DelayFor (INVALID_WORD_TIMEOUT cst);
           IsGameOverCall g p; ResetObjectivesCall g p]).
Proof.
  intros fuel g p data ty pl inp w e w1 e' w2
    Ht Hp Hin Hv Hplay He Hover Hreset.
  rewrite (handlePlayAction_engine_failure W svc cst fuel g p data ty pl inp
             w e w1 Ht Hp Hin Hplay).
  assert (E : catchBlock svc cst (resubmission svc cst fuel g p) e g p data w1
              = (Abrupt e', w2,
                 [DelayFor (INVALID_WORD_TIMEOUT cst); IsGameOverCall g p;
                  ResetObjectivesCall g p])).
  { unfold catchBlock. rewrite Hv. apply bind_abrupt.
    unfold handleError. rewrite He.
    unfold bind, awaitDelay, callIsGameOver, callHandleResetObjectives.
    rewrite Hover. simpl. rewrite Hreset. reflexivity. }
  rewrite E. unfold completion, world, trace. simpl.
  rewrite <- app_assoc. reflexivity.
Qed.


(** X14. A human player's word is rejected and the recovery runs to its
    end, but the game is over at the second check (the one made after
    [handleError]): the dispatch returns without submitting a PASS; the
    engine has been called once. *)
Theorem game_over_after_recovery_submits_no_pass :
  forall fuel g p data ty pl inp w e w1 update w2 game opponent,
    type data = Some ty -> payload data = Some pl -> input data = Some inp ->
    isIdVirtualPlayer svc p = false ->
    playAction svc g p data w = (Err e, w1) ->
    isWordNotInDictionaryError e = true ->
    isGameOver svc g p (delayFor svc (INVALID_WORD_TIMEOUT cst) w1) = Ok false ->
    handleResetObjectives svc g p (delayFor svc (INVALID_WORD_TIMEOUT cst) w1)
      = (Ok update, w2) ->
    triggerLookupOk svc g update w2 = true ->
    getGame svc g p w2 = Ok game ->
    getPlayer game p (IS_OPPONENT cst) = Ok opponent ->
    isGameOver svc g p w2 = Ok true ->
    exists after,
      handlePlayAction svc cst fuel g p data w =
        (Normal tt, w2, echoTrace g p inp ++ PlayActionCall g p data :: after)
      /\ after =
           [DelayFor (INVALID_WORD_TIMEOUT cst); IsGameOverCall g p;
            ResetObjectivesCall g p; EmitToRoom g (GameUpdate update)]
           ++ triggerTrace svc g update
           ++ [opponentNotice cst (Player.id opponent) g;
               commandIsInvalidNotice cst e (input data) p g;
               IsGameOverCall g p]
      /\ countIf isPlayActionCall after = 0.
Proof.
  intros fuel g p data ty pl inp w e w1 update w2 game opponent
    Ht Hp Hin Hv Hplay He Hover Hreset Htrig Hgame Hopp Hover2.
  eexists. split; [|split; [reflexivity|]].
  - rewrite (handlePlayAction_engine_failure W svc cst fuel g p data ty pl inp
               w e w1 Ht Hp Hin Hplay).
    assert (E : catchBlock svc cst (resubmission svc cst fuel g p) e g p data w1
                = (Normal tt, w2,
                   ([DelayFor (INVALID_WORD_TIMEOUT cst); IsGameOverCall g p;
                     ResetObjectivesCall g p; EmitToRoom g (GameUpdate update)]
                    ++ triggerTrace svc g update
                    ++ [opponentNotice cst (Player.id opponent) g;
                        commandIsInvalidNotice cst e (input data) p g])
                   ++ [IsGameOverCall g p])).
    { unfold catchBlock. rewrite Hv.
      rewrite (bind_normal W _ _ _ _ _ _
                 (handleError_recovers W svc cst e (input data) p g w1 update
                    w2 game opponent He Hover Hreset Htrig Hgame Hopp)).
      rewrite He. unfold completion, world, trace, bind, callIsGameOver.
      rewrite Hover2. reflexivity. }
    rewrite E. unfold completion, world, trace. simpl.
    rewrite <- !app_assoc. reflexivity.
  - rewrite !countIf_app, (countIf_triggerTrace W svc) by reflexivity.
    reflexivity.
Qed.

(** *** Dispatch: the depth of the resubmission *)

Lemma completion_run {A} (c : Completion A) (w : W) (t : list Event) :
  completion (c, w, t) = c.
Proof. reflexivity. Qed.

Lemma trace_run {A} (c : Completion A) (w : W) (t : list Event) :
  trace (c, w, t) = t.
Proof. reflexivity. Qed.

Lemma countIf_cons f ev t :
  countIf f (ev :: t) = (if f ev then 1 else 0) + countIf f t.
Proof. unfold countIf. simpl. destruct (f ev); reflexivity. Qed.

Lemma countIf_echoTrace f g p inp :
  (forall s m, f (EmitToSocket s (NewMessage m)) = false) ->
  countIf f (echoTrace g p inp) = 0.
Proof.
  intros Hf. unfold echoTrace, countIf.
  destruct (0 <? String.length inp)%nat; simpl; [rewrite Hf|]; reflexivity.
Qed.

(** X15. Nothing in the controller bounds the resubmission.  If, for a
    human player, the engine rejects every action of the game for an
    invalid word (the resubmitted PASS included), the game is never over
    and the reset and the lookups succeed, then for every fuel the
    dispatch is still unfinished after [fuel + 1] engine calls. *)
Theorem rejected_pass_is_resubmitted_without_bound :
  forall g p,
    isIdVirtualPlayer svc p = false ->
    (forall data w, exists e w1,
        playAction svc g p data w = (Err e, w1)
        /\ isWordNotInDictionaryError e = true) ->
    (forall w, isGameOver svc g p w = Ok false) ->
    (forall w, exists update w2,
        handleResetObjectives svc g p w = (Ok update, w2)
        /\ triggerLookupOk svc g update w2 = true) ->
    (forall w, exists game opponent,
        getGame svc g p w = Ok game
        /\ getPlayer game p (IS_OPPONENT cst) = Ok opponent) ->
    forall fuel data ty pl inp w,
      type data = Some ty -> payload data = Some pl -> input data = Some inp ->
      completion (handlePlayAction svc cst fuel g p data w) = Unfinished
      /\ countIf isPlayActionCall
           (trace (handlePlayAction svc cst fuel g p data w)) = S fuel.
Proof.
  intros g p Hv Hplay Hover Hreset Hlook.
  assert (Hround : forall fuel data ty pl inp w,
    type data = Some ty -> payload data = Some pl -> input data = Some inp ->
    exists w2 before,
      handlePlayAction svc cst fuel g p data w =
        (completion (resubmission svc cst fuel g p w2),
         world (resubmission svc cst fuel g p w2),
         before ++ trace (resubmission svc cst fuel g p w2))
      /\ countIf isPlayActionCall before = 1).
  { intros fuel data ty pl inp w Ht Hp Hin.
    destruct (Hplay data w) as (e & w1 & Eplay & He).
    destruct (Hreset (delayFor svc (INVALID_WORD_TIMEOUT cst) w1))
      as (update & w2 & Ereset & Htrig).
    destruct (Hlook w2) as (game & opponent & Egame & Eopp).
    exists w2. eexists. split.
    - rewrite (handlePlayAction_engine_failure W svc cst fuel g p data ty pl
                 inp w e w1 Ht Hp Hin Eplay).
      rewrite (catchBlock_recovers W svc cst _ e g p data w1 update w2 game
                 opponent Hv He (Hover _) Ereset Htrig Egame Eopp (Hover _)).
      unfold completion at 1, world at 1, trace at 1. cbn [fst snd].
      unfold completion at 1, world at 1, trace at 1. cbn [fst snd].
      unfold trace at 1. cbn [snd].
      rewrite (app_assoc _ _ (IsGameOverCall g p :: _)).
      change (IsGameOverCall g p
              :: trace (resubmission svc cst fuel g p w2))
        with ([IsGameOverCall g p]
              ++ trace (resubmission svc cst fuel g p w2)).
      rewrite (app_assoc _ [IsGameOverCall g p]). reflexivity.
    - rewrite !countIf_app, (countIf_triggerTrace W svc) by reflexivity.
      rewrite countIf_echoTrace by reflexivity. reflexivity. }
  induction fuel as [|fuel IH]; intros data ty pl inp w Ht Hp Hin.
  - destruct (Hround 0 data ty pl inp w Ht Hp Hin) as (w2 & before & E & Hn).
    rewrite (f_equal completion E), (f_equal trace E).
    rewrite completion_run, trace_run.
    rewrite countIf_app, Hn. split; reflexivity.
  - destruct (Hround (S fuel) data ty pl inp w Ht Hp Hin)
      as (w2 & before & E & Hn).
    rewrite (f_equal completion E), (f_equal trace E).
    rewrite completion_run, trace_run.
    rewrite countIf_app, Hn.
    destruct (IH passAction PASS [] "" w2 eq_refl eq_refl eq_refl)
      as [Hc Hm].
    unfold resubmission. split; [exact Hc|].
    rewrite Hm. reflexivity.
Qed.

(** *** Dispatch: a PASS that is never an invalid word *)

Lemma fromSystem_not_engine_call ev :
  fromSystem cst ev = true -> isPlayActionCall ev = false.
Proof. destruct ev as [s [m|d]|r [m|d]| | | | |]; simpl; congruence. Qed.

Lemma tryBlock_engine_calls g p data w :
  completion (tryBlock svc cst g p data w) <> Unfinished
  /\ countIf isPlayActionCall (trace (tryBlock svc cst g p data w)) <= 1.
Proof.
  destruct (input data) as [inp|] eqn:Hin.
  - destruct (tryBlock_shape W svc cst g p data inp w Hin)
      as (r & w1 & t & E & Hr & Hsys).
    rewrite E, completion_run, trace_run. split; [exact Hr|].
    rewrite countIf_app, countIf_echoTrace, countIf_cons by reflexivity.
    rewrite (countIf_none (fromSystem cst) isPlayActionCall t
               fromSystem_not_engine_call Hsys).
    simpl. lia.
  - unfold tryBlock, bind, echoInput, throw. rewrite Hin.
    rewrite completion_run, trace_run. split; [discriminate|].
    unfold countIf. simpl. lia.
Qed.

Lemma handleError_engine_calls e i p g w :
  exists c w1 t,
    handleError svc cst e i p g w = (c, w1, t)
    /\ c <> Unfinished
    /\ countIf isPlayActionCall t = 0.
Proof.
  unfold handleError.
  destruct (isWordNotInDictionaryError e);
    [| eexists; eexists; eexists; split; [reflexivity|];
       split; [discriminate | reflexivity]].
  unfold bind at 1. unfold awaitDelay at 1.
  unfold bind at 1. unfold callIsGameOver at 1.
  destruct (isGameOver svc g p (delayFor svc (INVALID_WORD_TIMEOUT cst) w))
    as [[|]|e1]; simpl;
    try (eexists; eexists; eexists; split; [reflexivity|];
         split; [discriminate | reflexivity]).
  unfold bind at 1. unfold callHandleResetObjectives at 1.
  destruct (handleResetObjectives svc g p
              (delayFor svc (INVALID_WORD_TIMEOUT cst) w))
    as [[update|e2] w2]; simpl;
    try (eexists; eexists; eexists; split; [reflexivity|];
         split; [discriminate | reflexivity]).
  unfold bind at 1.
  destruct (gameUpdate_shape W svc cst g update w2) as (r & t & E & Hr & Ht).
  rewrite E.
  pose proof (countIf_none (fromSystem cst) isPlayActionCall t
                fromSystem_not_engine_call Ht) as Hn.
  destruct r as [[]|e3|]; [| |contradiction].
  - unfold bind, callGetGame, callGetPlayer, notifyCommandIsInvalid, emit.
    destruct (getGame svc g p w2) as [game|e4]; simpl;
      [| eexists; eexists; eexists; split; [reflexivity|];
         split; [discriminate|];
         rewrite app_nil_r, !countIf_cons, Hn; reflexivity].
    destruct (getPlayer game p (IS_OPPONENT cst)) as [o|e5]; simpl;
      [| eexists; eexists; eexists; split; [reflexivity|];
         split; [discriminate|];
         rewrite app_nil_r, !countIf_cons, Hn; reflexivity].
    eexists; eexists; eexists; split; [reflexivity|].
    split; [discriminate|].
    rewrite !countIf_cons, countIf_app, Hn. reflexivity.
  - simpl. eexists; eexists; eexists; split; [reflexivity|].
    split; [discriminate|].
    rewrite !countIf_cons, Hn. reflexivity.
Qed.

Lemma catchBlock_engine_calls resubmit e g p data w :
  (forall w', exists c w2 t,
      resubmit w' = (c, w2, t)
      /\ c <> Unfinished
      /\ countIf isPlayActionCall t <= 1) ->
  exists c w2 t,
    catchBlock svc cst resubmit e g p data w = (c, w2, t)
    /\ c <> Unfinished
    /\ countIf isPlayActionCall t <= 1.
Proof.
  intros Hres. unfold catchBlock.
  destruct (isIdVirtualPlayer svc p);
    [eexists; eexists; eexists; split; [reflexivity|];
     split; [discriminate | unfold countIf; simpl; lia]|].
  destruct (handleError_engine_calls e (input data) p g w)
    as (r & w1 & t1 & E & Hfin & Hn).
  unfold bind at 1. rewrite E.
  destruct r as [[]|e1|]; [| | contradiction].
  - destruct (isWordNotInDictionaryError e).
    + unfold bind, callIsGameOver.
      destruct (isGameOver svc g p w1) as [[|]|e2]; simpl;
        try (eexists; eexists; eexists; split; [reflexivity|];
             split; [discriminate|];
             rewrite countIf_app, Hn; unfold countIf; simpl; lia).
      destruct (Hres w1) as (c3 & w3 & t3 & E3 & Hfin3 & Hn3).
      rewrite E3.
      eexists; eexists; eexists; split; [reflexivity|].
      split; [exact Hfin3|].
      rewrite countIf_app, Hn, countIf_cons. simpl. exact Hn3.
    + unfold ret.
      eexists; eexists; eexists; split; [reflexivity|].
      split; [discriminate|]. rewrite app_nil_r, Hn. lia.
  - eexists; eexists; eexists; split; [reflexivity|].
    split; [discriminate|]. rewrite Hn. lia.
Qed.

(** X16. If the resubmitted PASS never fails for an invalid word, one
    level of resubmission is all the controller uses: whatever the
    action, the player and the other services do, a dispatch that may
    resubmit once finishes (it returns or throws), and it calls the
    engine at most twice, once for the action and once for the PASS. *)
Theorem pass_that_is_no_invalid_word_bounds_the_dispatch :
  forall g p,
    (forall w e w1 t,
        tryBlock svc cst g p passAction w = (Abrupt e, w1, t) ->
        isWordNotInDictionaryError e = false) ->
    forall fuel data w,
      completion (handlePlayAction svc cst (S fuel) g p data w) <> Unfinished
      /\ countIf isPlayActionCall
           (trace (handlePlayAction svc cst (S fuel) g p data w)) <= 2.
Proof.
  intros g p Hpass fuel data w.
  destruct (type data) as [ty|] eqn:Ht;
    [| rewrite (handlePlayAction_invalid W svc cst _ g p data w (or_introl Ht));
       split; [discriminate | unfold countIf; simpl; lia]].
  destruct (payload data) as [pl|] eqn:Hp;
    [| rewrite (handlePlayAction_invalid W svc cst _ g p data w (or_intror Hp));
       split; [discriminate | unfold countIf; simpl; lia]].
  rewrite (handlePlayAction_valid W svc cst (S fuel) g p data ty pl Ht Hp).
  destruct (tryBlock_engine_calls g p data w) as [Hfin Hn].
  unfold tryCatch.
  destruct (tryBlock svc cst g p data w) as [[[[]|e|] w1] t1];
    rewrite completion_run in Hfin; rewrite trace_run in Hn;
    [ rewrite completion_run, trace_run; split; [discriminate | lia]
    | | contradiction ].
  assert (Hcatch : exists c2 w2 t2,
    catchBlock svc cst (resubmission svc cst (S fuel) g p) e g p data w1
      = (c2, w2, t2)
    /\ c2 <> Unfinished
    /\ countIf isPlayActionCall t2 <= 1).
  { destruct (isIdVirtualPlayer svc p) eqn:Hv.
    - rewrite (catchBlock_virtual W svc cst _ e g p data w1 Hv).
      eexists; eexists; eexists; split; [reflexivity|].
      split; [discriminate | unfold countIf; simpl; lia].
    - apply catchBlock_engine_calls. intros w'. simpl.
      destruct (pass_dispatch_without_recovery W svc cst fuel g p w' Hv
                  (Hpass w')) as (w3 & t & E & Hsys).
      rewrite E. eexists; eexists; eexists; split; [reflexivity|].
      split; [discriminate|].
      rewrite countIf_cons,
        (countIf_none (fromSystem cst) isPlayActionCall t
           fromSystem_not_engine_call Hsys).
      simpl. lia. }
  destruct Hcatch as (c2 & w2 & t2 & E2 & Hfin2 & Hn2).
  rewrite E2, completion_run, trace_run.
  split; [exact Hfin2|]. rewrite countIf_app. lia.
Qed.

(** *** Dispatch: every event concerns the game of the request *)

Lemma gameUpdate_inGame g d w :
  forallb (inGame g) (trace (gameUpdate svc g d w)) = true.
Proof.
  unfold gameUpdate, bind, emit, callGetGame, ret, trace. simpl.
  destruct (round d) as [r|]; simpl; rewrite ?String.eqb_refl; try reflexivity.
  destruct (isIdVirtualPlayer svc (Player.id (playerData r))); simpl;
    rewrite ?String.eqb_refl; try reflexivity.
  destruct (getGame svc g (Player.id (playerData r)) w); simpl;
    rewrite ?String.eqb_refl; reflexivity.
Qed.

Lemma handleFeedback_inGame g p fb w :
  forallb (inGame g) (trace (handleFeedback svc cst g p fb w)) = true.
Proof.
  unfold handleFeedback, bind, emit, callGetGame, callGetPlayer, ret, trace.
  destruct (truthy (Fb.message (localPlayerFeedback fb)));
    destruct (truthy (Fb.message (opponentFeedback fb)));
    try destruct (getGame svc g p w) as [game|e]; simpl;
    try destruct (getPlayer game p (IS_OPPONENT cst)) as [o|e]; simpl;
    destruct (endGameFeedback fb); simpl;
    rewrite ?String.eqb_refl; reflexivity.
Qed.

Lemma tryBlock_inGame g p data w :
  forallb (inGame g) (trace (tryBlock svc cst g p data w)) = true.
Proof.
  unfold tryBlock, echoInput.
  destruct (input data) as [inp|]; [|reflexivity].
  assert (Hecho : forall t,
            forallb (inGame g) t = true ->
            forallb (inGame g) (echoTrace g p inp ++ t) = true).
  { intros t Ht. unfold echoTrace.
    destruct (0 <? String.length inp)%nat; simpl;
      rewrite ?String.eqb_refl; exact Ht. }
  assert (Hrest : forall w0,
    forallb (inGame g)
      (trace ((res <- callPlayAction svc g p data ;;
               (match fst res with
                | Some updateData => gameUpdate svc g updateData
                | None => ret tt
                end) ;;
               (match snd res with
                | Some feedback => handleFeedback svc cst g p feedback
                | None => ret tt
                end)) w0)) = true).
  { intros w0. unfold bind at 1. unfold callPlayAction.
    destruct (playAction svc g p data w0) as [[[u f]|e] w1]; simpl;
      [| rewrite String.eqb_refl; reflexivity].
    unfold bind.
    assert (Hu : forallb (inGame g)
              (trace (match u with
                      | Some updateData => gameUpdate svc g updateData
                      | None => ret tt
                      end w1)) = true).
    { destruct u; [apply gameUpdate_inGame | reflexivity]. }
    destruct (match u with
              | Some updateData => gameUpdate svc g updateData
              | None => ret tt
              end w1) as [[[[]|e|] w2] t2]; unfold trace in *; simpl in *;
      rewrite ?String.eqb_refl; simpl; try exact Hu.
    assert (Hf : forallb (inGame g)
              (trace (match f with
                      | Some feedback => handleFeedback svc cst g p feedback
                      | None => ret tt
                      end w2)) = true).
    { destruct f; [apply handleFeedback_inGame | reflexivity]. }
    destruct (match f with
              | Some feedback => handleFeedback svc cst g p feedback
              | None => ret tt
              end w2) as [[c3 w3] t3]; unfold trace in *; simpl in *.
    rewrite forallb_app, Hu, Hf, ?String.eqb_refl. reflexivity. }
  unfold bind at 1.
  destruct (0 <? String.length inp)%nat eqn:Hlen.
  - unfold emit at 1. specialize (Hrest w).
    destruct ((res <- callPlayAction svc g p data ;;
               (match fst res with
                | Some updateData => gameUpdate svc g updateData
                | None => ret tt
                end) ;;
               (match snd res with
                | Some feedback => handleFeedback svc cst g p feedback
                | None => ret tt
                end)) w) as [[c1 w1] t1].
    unfold trace in *. simpl in *. rewrite String.eqb_refl. exact Hrest.
  - unfold ret at 1. specialize (Hrest w).
    destruct ((res <- callPlayAction svc g p data ;;
               (match fst res with
                | Some updateData => gameUpdate svc g updateData
                | None => ret tt
                end) ;;
               (match snd res with
                | Some feedback => handleFeedback svc cst g p feedback
                | None => ret tt
                end)) w) as [[c1 w1] t1].
    unfold trace in *. simpl in *. exact Hrest.
Qed.

Lemma handleError_inGame e i p g w :
  forallb (inGame g) (trace (handleError svc cst e i p g w)) = true.
Proof.
  unfold handleError.
  destruct (isWordNotInDictionaryError e).
  - unfold bind at 1. unfold awaitDelay at 1.
    unfold bind at 1. unfold callIsGameOver at 1.
    destruct (isGameOver svc g p (delayFor svc (INVALID_WORD_TIMEOUT cst) w))
      as [[|]|e1]; simpl; rewrite ?String.eqb_refl; try reflexivity.
    unfold bind at 1. unfold callHandleResetObjectives at 1.
    destruct (handleResetObjectives svc g p
                (delayFor svc (INVALID_WORD_TIMEOUT cst) w))
      as [[update|e2] w2]; simpl; rewrite ?String.eqb_refl; try reflexivity.
    unfold bind at 1.
    pose proof (gameUpdate_inGame g update w2) as Hu.
    destruct (gameUpdate svc g update w2) as [[[[]|e3|] w3] t3];
      unfold trace in *; simpl in *; rewrite ?String.eqb_refl; simpl;
      try exact Hu.
    unfold bind, callGetGame, callGetPlayer, notifyCommandIsInvalid, emit.
    destruct (getGame svc g p w3) as [game|e4]; simpl;
      [| rewrite app_nil_r, ?String.eqb_refl; exact Hu].
    destruct (getPlayer game p (IS_OPPONENT cst)) as [o|e5]; simpl;
      [| rewrite app_nil_r, ?String.eqb_refl; exact Hu].
    rewrite forallb_app, Hu. simpl. rewrite !String.eqb_refl. reflexivity.
  - unfold notifyCommandIsInvalid, emit, trace. simpl.
    rewrite String.eqb_refl. reflexivity.
Qed.

Lemma catchBlock_inGame resubmit e g p data w :
  (forall w', forallb (inGame g) (trace (resubmit w')) = true) ->
  forallb (inGame g) (trace (catchBlock svc cst resubmit e g p data w)) = true.
Proof.
  intros Hres. unfold catchBlock.
  destruct (isIdVirtualPlayer svc p); [reflexivity|].
  pose proof (handleError_inGame e (input data) p g w) as Hq.
  unfold bind at 1.
  destruct (handleError svc cst e (input data) p g w) as [[r w1] t1].
  unfold trace in Hq. cbn [snd] in Hq.
  destruct r as [[]|e1|]; [| exact Hq | exact Hq].
  destruct (isWordNotInDictionaryError e).
  - unfold bind, callIsGameOver.
    destruct (isGameOver svc g p w1) as [[|]|e2]; simpl;
      try (unfold trace; cbn [snd]; rewrite forallb_app, Hq; simpl;
           rewrite String.eqb_refl; reflexivity).
    specialize (Hres w1). destruct (resubmit w1) as [[r3 w3] t3].
    unfold trace in *. cbn [snd] in *.
    rewrite forallb_app, Hq. simpl. rewrite String.eqb_refl. exact Hres.
  - unfold ret, trace. cbn [snd]. rewrite app_nil_r. exact Hq.
Qed.

Lemma handlePlayAction_inGame_step fuel g p data w :
  (forall w', forallb (inGame g) (trace (resubmission svc cst fuel g p w')) = true) ->
  forallb (inGame g) (trace (handlePlayAction svc cst fuel g p data w)) = true.
Proof.
  intros Hres.
  destruct (type data) as [ty|] eqn:Ht;
    [| rewrite (handlePlayAction_invalid W svc cst fuel g p data w
                  (or_introl Ht)); reflexivity].
  destruct (payload data) as [pl|] eqn:Hp;
    [| rewrite (handlePlayAction_invalid W svc cst fuel g p data w
                  (or_intror Hp)); reflexivity].
  rewrite (handlePlayAction_valid W svc cst fuel g p data ty pl Ht Hp).
  pose proof (tryBlock_inGame g p data w) as Htry.
  unfold tryCatch.
  destruct (tryBlock svc cst g p data w) as [[[[]|e|] w1] t1];
    try exact Htry.
  pose proof (catchBlock_inGame (resubmission svc cst fuel g p) e g p data w1
                Hres) as Hc.
  destruct (catchBlock svc cst (resubmission svc cst fuel g p) e g p data w1)
    as [[c2 w2] t2].
  unfold trace in *. cbn [snd] in *.
  rewrite forallb_app, Htry, Hc. reflexivity.
Qed.

Lemma resubmission_inGame fuel g p :
  forall w, forallb (inGame g) (trace (resubmission svc cst fuel g p w)) = true.
Proof.
  induction fuel as [|fuel IH]; intros w; [reflexivity|].
  simpl. apply handlePlayAction_inGame_step. exact IH.
Qed.

(** X17. Whatever the action, the player, the services and the fuel, a
    dispatch for game [g] only concerns [g]: every room it emits to is the
    room of [g], every chat message it sends names [g], every service
    call and every trigger is made for [g]. *)
Theorem dispatch_stays_in_its_game :
  forall fuel g p data w,
    forallb (inGame g) (trace (handlePlayAction svc cst fuel g p data w)) = true.
Proof.
  intros fuel g p data w. apply handlePlayAction_inGame_step.
  apply resubmission_inGame.
Qed.

(** *** The chat and error channels *)

(** X18. The chat route broadcasts exactly when the body has a sender
    and a content: the message goes unchanged to the room of the game of
    the path (whatever game the body names, whatever player the path
    names) and the reply is 204.  Otherwise the reply is an error with
    status 400, the missing sender being reported first, and nothing is
    emitted. *)
Theorem chat_route_broadcasts_iff_both_fields :
  forall g p body (w : W),
    postMessage errs g p body w =
      match bodySenderId body, bodyContent body with
      | Some sender, Some text =>
          (Some (StatusSent 204%Z), w,
           [EmitToRoom g (NewMessage
              {| content := text; senderId := sender;
                 gameId := bodyGameId body;
                 isClickable := bodyIsClickable body |})])
      | None, _ =>
          (Some (ErrorSent (HttpException (SENDER_REQUIRED errs) (Some 400%Z))),
           w, [])
      | Some _, None =>
          (Some (ErrorSent (HttpException (CONTENT_REQUIRED errs) (Some 400%Z))),
           w, [])
      end
    /\ (completion (handleNewMessage errs g body w) = Normal tt
        <-> countIf isRoomEmission (trace (handleNewMessage errs g body w)) = 1).
Proof.
  intros g p body w.
  unfold postMessage, respond, handleNewMessage.
  destruct (bodySenderId body) as [s|]; destruct (bodyContent body) as [c|];
    (split; [reflexivity|]); split; intros H; try reflexivity;
    discriminate H.
Qed.

(** X19. The error route delivers the content to the socket of the player
    of the path only, signed by the system-error sender and naming the
    game of the path: the sender, the game and the clickable flag of the
    body are not used. *)
Theorem error_route_forces_the_sender :
  forall g p body text (w : W),
    bodySenderId body <> None ->
    bodyContent body = Some text ->
    postError cst errs g p body w =
      (Some (StatusSent 204%Z), w,
       [EmitToSocket p (NewMessage
          {| content := text; senderId := SYSTEM_ERROR_ID cst;
             gameId := g; isClickable := None |})]).
Proof.
  intros g p body text w Hs Hc.
  unfold postError, respond, handleNewError. rewrite Hc.
  destruct (bodySenderId body); [reflexivity|contradiction].
Qed.

(** *** The action route *)

(** X20. The reply of the action route to an engine failure that is not
    an invalid word depends on the actor: for a virtual player the
    failure is handed to [sendError] with its message and status and
    nobody is notified; for a human the reply is 204 and the player gets
    the system-error message. *)
Theorem action_route_reply_depends_on_actor :
  forall fuel g p data ty pl inp w e w1,
    type data = Some ty -> payload data = Some pl -> input data = Some inp ->
    playAction svc g p data w = (Err e, w1) ->
    isWordNotInDictionaryError e = false ->
    postAction svc cst fuel g p data w =
      if isIdVirtualPlayer svc p then
        (Some (ErrorSent (HttpException (message e) (status e))), w1,
         echoTrace g p inp ++ [PlayActionCall g p data])
      else
        (Some (StatusSent 204%Z), w1,
         echoTrace g p inp
         ++ [PlayActionCall g p data;
             commandIsInvalidNotice cst e (Some inp) p g]).
Proof.
  intros fuel g p data ty pl inp w e w1 Ht Hp Hin Hplay He.
  unfold postAction, respond.
  destruct (isIdVirtualPlayer svc p) eqn:Hv.
  - rewrite (handlePlayAction_engine_failure W svc cst fuel g p data ty pl inp
               w e w1 Ht Hp Hin Hplay).
    rewrite (catchBlock_virtual W svc cst _ e g p data w1 Hv).
    unfold completion, world, trace. simpl. rewrite app_nil_r. reflexivity.
  - rewrite (human_failure_in_try_block fuel g p data ty pl w e w1 _ Ht Hp Hv
               (tryBlock_engine_failure W svc cst g p data inp w e w1 Hin Hplay)
               He).
    rewrite Hin, <- app_assoc. reflexivity.
Qed.

(** *** The text that classifies a failure *)

Lemma prefix_of_append (s t : string) : prefix s (s ++ t) = true.
Proof.
  apply prefix_correct. induction s as [|a s IH]; simpl.
  - destruct t; reflexivity.
  - rewrite IH. reflexivity.
Qed.

Lemma prefix_gives_append (s1 s2 : string) :
  prefix s1 s2 = true -> exists post, s2 = (s1 ++ post)%string.
Proof.
  revert s2. induction s1 as [|a s1 IH]; intros s2 H.
  - exists s2. reflexivity.
  - destruct s2 as [|b s2]; simpl in H; [discriminate|].
    destruct (Ascii.ascii_dec a b) as [->|]; [|discriminate].
    destruct (IH s2 H) as (post & ->). exists post. reflexivity.
Qed.

Lemma includes_append (pre needle post : string) :
  includes (pre ++ needle ++ post) needle = true.
Proof.
  unfold includes.
  assert (H : index 0 needle (pre ++ needle ++ post) <> None).
  { induction pre as [|a pre IH].
    - change ("" ++ needle ++ post)%string with (needle ++ post)%string.
      destruct (needle ++ post)%string as [|b s] eqn:E.
      + destruct needle; [discriminate|discriminate E].
      + change (index 0 needle (String b s))
          with (if prefix needle (String b s) then Some 0
                else match index 0 needle s with
                     | Some n => Some (S n)
                     | None => None
                     end).
        rewrite <- E, prefix_of_append. discriminate.
    - change (String a pre ++ needle ++ post)%string
        with (String a (pre ++ needle ++ post)).
      change (index 0 needle (String a (pre ++ needle ++ post)))
        with (if prefix needle (String a (pre ++ needle ++ post)) then Some 0
              else match index 0 needle (pre ++ needle ++ post) with
                   | Some n => Some (S n)
                   | None => None
                   end).
      destruct (prefix needle (String a (pre ++ needle ++ post)));
        [discriminate|].
      destruct (index 0 needle (pre ++ needle ++ post));
        [discriminate|contradiction]. }
  destruct (index 0 needle (pre ++ needle ++ post)); [reflexivity|contradiction].
Qed.

Lemma includes_gives_append (hay needle : string) :
  includes hay needle = true ->
  exists pre post, hay = (pre ++ needle ++ post)%string.
Proof.
  unfold includes. induction hay as [|b hay IH].
  - simpl. destruct needle; [|discriminate].
    intros _. exists ""%string, ""%string. reflexivity.
  - change (index 0 needle (String b hay))
      with (if prefix needle (String b hay) then Some 0
            else match index 0 needle hay with
                 | Some n => Some (S n)
                 | None => None
                 end).
    destruct (prefix needle (String b hay)) eqn:Hp.
    + intros _. destruct (prefix_gives_append _ _ Hp) as (post & E).
      exists ""%string, post. exact E.
    + destruct (index 0 needle hay); [|discriminate].
      intros _. destruct (IH eq_refl) as (pre & post & ->).
      exists (String b pre), post. reflexivity.
Qed.

(** X21. A failure is classified as an invalid word exactly when its
    message contains the fixed French text somewhere: at the start, in
    the middle or at the end, whatever its status. *)
Theorem invalid_word_is_recognised_by_substring :
  forall e,
    isWordNotInDictionaryError e = true
    <-> exists pre post,
          message e = (pre ++ notInDictionary ++ post)%string.
Proof.
  intros e. unfold isWordNotInDictionaryError. split.
  - apply includes_gives_append.
  - intros (pre & post & ->). apply includes_append.
Qed.

End MoreProperties.

(** ** The further properties on the second server *)

Module LabRuns.

Import Lab.

(** X1 on an update that gives the turn to the virtual player. *)
Lemma trigger_witness :
  gameUpdate services "g1" botTurn accepted =
    (Normal tt, accepted,
     [EmitToRoom "g1" (GameUpdate botTurn);
      TriggerVirtualPlayerTurn botTurn "g1" botId]).
Proof.
  apply (gameUpdate_virtual_round_triggers_once World services
           "g1" botTurn {| playerData := {| Player.id := botId |} |}
           accepted game); reflexivity.
Defined.

(** X2 on the same update when the session is gone. *)
Lemma trigger_lookup_failure_witness :
  gameUpdate services "g1" botTurn acceptedThenLost =
    (Abrupt noGameFound, acceptedThenLost,
     [EmitToRoom "g1" (GameUpdate botTurn)])
  /\ countIf isTrigger (trace (gameUpdate services "g1" botTurn acceptedThenLost))
     = 0.
Proof.
  apply (gameUpdate_lookup_failure_follows_broadcast World services
           "g1" botTurn {| playerData := {| Player.id := botId |} |}
           acceptedThenLost noGameFound); reflexivity.
Defined.

(** X3 on an update that gives the turn to a human, the session gone. *)
Lemma human_round_witness :
  gameUpdate services "g1" annTurn acceptedThenLost =
    (Normal tt, acceptedThenLost, [EmitToRoom "g1" (GameUpdate annTurn)]).
Proof.
  apply (gameUpdate_human_round_only_broadcasts World services
           "g1" annTurn acceptedThenLost); reflexivity.
Defined.

(** X4 on a feedback with empty messages, the session gone. *)
Lemma falsy_feedback_witness :
  handleFeedback services constants "g1" "ann" silent acceptedThenLost =
    (Normal tt, acceptedThenLost, []).
Proof.
  apply (handleFeedback_falsy_messages_send_nothing World services constants
           "g1" "ann" silent acceptedThenLost); reflexivity.
Defined.

(** X5 on a feedback for both players, the session gone. *)
Lemma feedback_lookup_failure_witness :
  handleFeedback services constants "g1" "ann" scored acceptedThenLost =
    (Abrupt noGameFound, acceptedThenLost,
     if truthy (Fb.message (localPlayerFeedback scored)) then
       [EmitToSocket "ann" (NewMessage
          {| content := orEmpty (Fb.message (localPlayerFeedback scored));
             senderId := SYSTEM_ID constants;
             gameId := "g1";
             isClickable := Fb.isClickable (localPlayerFeedback scored) |})]
     else [])
  /\ countIf isRoomEmission
       (trace (handleFeedback services constants "g1" "ann" scored
                 acceptedThenLost)) = 0.
Proof.
  apply (handleFeedback_opponent_lookup_failure World services constants
           "g1" "ann" scored acceptedThenLost noGameFound); reflexivity.
Defined.

(** X7 on an accepted word. *)
Lemma accepted_action_witness :
  handlePlayAction services constants 0 "g1" "ann" place accepted =
    (Normal tt, accepted,
     echoTrace "g1" "ann" "!placer h8h chat"
     ++ PlayActionCall "g1" "ann" place
        :: EmitToRoom "g1" (GameUpdate botTurn)
        :: triggerTrace services "g1" botTurn
        ++ [EmitToSocket "ann" (NewMessage
              {| content := "You scored 12"; senderId := "system";
                 gameId := "g1"; isClickable := Some true |});
            EmitToSocket botId (NewMessage
              {| content := "ann scored 12"; senderId := "system";
                 gameId := "g1"; isClickable := None |})]).
Proof.
  apply (accepted_action_broadcasts_then_routes World services constants
           0 "g1" "ann" place PLACE [("tiles", "chat")] "!placer h8h chat"
           accepted botTurn scored accepted game {| Player.id := botId |});
    reflexivity.
Defined.

(** X8 on an engine that returns nothing. *)
Lemma silent_action_witness :
  handlePlayAction services constants 0 "g1" "ann" place
    (lab (Ok (None, None)) false false true false) =
    (Normal tt, lab (Ok (None, None)) false false true false,
     echoTrace "g1" "ann" "!placer h8h chat"
     ++ [PlayActionCall "g1" "ann" place]).
Proof.
  apply (accepted_action_without_result_is_silent World services constants
           0 "g1" "ann" place PLACE [("tiles", "chat")] "!placer h8h chat"
           (lab (Ok (None, None)) false false true false));
    reflexivity.
Defined.

(** X9 on a player who plays out of turn. *)
Lemma other_failure_witness :
  handlePlayAction services constants 0 "g1" "ann" place refused =
    (Normal tt, refused,
     echoTrace "g1" "ann" "!placer h8h chat"
     ++ [PlayActionCall "g1" "ann" place;
         commandIsInvalidNotice constants notYourTurn
           (Some "!placer h8h chat") "ann" "g1"]).
Proof.
  apply (human_other_failure_is_absorbed World services constants
           0 "g1" "ann" place PLACE [("tiles", "chat")] "!placer h8h chat"
           refused notYourTurn refused); reflexivity.
Defined.

(** X10 on an accepted word when the session is gone. *)
Lemma lookup_failure_reported_witness :
  handlePlayAction services constants 0 "g1" "ann" place acceptedThenLost =
    (Normal tt, acceptedThenLost,
     echoTrace "g1" "ann" "!placer h8h chat"
     ++ [PlayActionCall "g1" "ann" place;
         EmitToRoom "g1" (GameUpdate botTurn);
         commandIsInvalidNotice constants noGameFound
           (Some "!placer h8h chat") "ann" "g1"]).
Proof.
  apply (lookup_failure_after_accepted_action_is_reported_as_invalid
           World services constants
           0 "g1" "ann" place PLACE [("tiles", "chat")] "!placer h8h chat"
           acceptedThenLost botTurn (Some scored) acceptedThenLost
           {| playerData := {| Player.id := botId |} |} noGameFound);
    reflexivity.
Defined.

(** X11 on the virtual player playing out of turn. *)
Lemma virtual_catch_witness :
  trace (handlePlayAction services constants 0 "g1" botId place refused)
    = trace (tryBlock services constants "g1" botId place refused)
  /\ world (handlePlayAction services constants 0 "g1" botId place refused)
     = world (tryBlock services constants "g1" botId place refused)
  /\ completion (handlePlayAction services constants 0 "g1" botId place refused)
     = match completion (tryBlock services constants "g1" botId place refused)
       with
       | Abrupt e => Abrupt (HttpException (message e) (status e))
       | other => other
       end.
Proof.
  apply (virtual_player_catch_adds_nothing World services constants
           0 "g1" botId place PLACE [("tiles", "chat")] refused);
    reflexivity.
Defined.

(** X12 on a rejected word when the reset is broken. *)
Lemma reset_failure_witness :
  handlePlayAction services constants 1 "g1" "ann" place
    (lab (Err wordRejected) false true false false) =
    (Abrupt noObjectives, lab (Err wordRejected) false true false false,
     echoTrace "g1" "ann" "!placer h8h chat"
     ++ [PlayActionCall "g1" "ann" place;
         DelayFor (INVALID_WORD_TIMEOUT constants);
         IsGameOverCall "g1" "ann"; ResetObjectivesCall "g1" "ann"]).
Proof.
  apply (reset_failure_leaves_the_dispatch World services constants
           1 "g1" "ann" place PLACE [("tiles", "chat")] "!placer h8h chat"
           (lab (Err wordRejected) false true false false) wordRejected
           (lab (Err wordRejected) false true false false) noObjectives
           (lab (Err wordRejected) false true false false));
    reflexivity.
Defined.


(** X14 on a game that ends with the reset. *)
Lemma game_over_after_recovery_witness :
  exists after,
    handlePlayAction services constants 1 "g1" "ann" place
      (lab (Err wordRejected) false false false true) =
      (Normal tt, afterReset (lab (Err wordRejected) false false false true),
       echoTrace "g1" "ann" "!placer h8h chat"
       ++ PlayActionCall "g1" "ann" place :: after)
    /\ after =
         [DelayFor (INVALID_WORD_TIMEOUT constants); IsGameOverCall "g1" "ann";
          ResetObjectivesCall "g1" "ann"; EmitToRoom "g1" (GameUpdate resetUpdate)]
         ++ triggerTrace services "g1" resetUpdate
         ++ [opponentNotice constants (Player.id {| Player.id := botId |}) "g1";
             commandIsInvalidNotice constants wordRejected (input place)
               "ann" "g1";
             IsGameOverCall "g1" "ann"]
    /\ countIf isPlayActionCall after = 0.
Proof.
  apply (game_over_after_recovery_submits_no_pass World services constants
           1 "g1" "ann" place PLACE [("tiles", "chat")] "!placer h8h chat"
           (lab (Err wordRejected) false false false true) wordRejected
           (lab (Err wordRejected) false false false true) resetUpdate
           (afterReset (lab (Err wordRejected) false false false true))
           game {| Player.id := botId |});
    reflexivity.
Defined.

(** X15 on the server that rejects everything. *)
Lemma unbounded_resubmission_witness :
  completion (handlePlayAction stubborn constants 4 "g1" "ann" place tt)
    = Unfinished
  /\ countIf isPlayActionCall
       (trace (handlePlayAction stubborn constants 4 "g1" "ann" place tt)) = 5.
Proof.
  apply (rejected_pass_is_resubmitted_without_bound unit stubborn constants
           "g1" "ann")
    with (ty := PLACE) (pl := [("tiles", "chat")]) (inp := "!placer h8h chat").
  - reflexivity.
  - intros data w. exists wordRejected, w. split; reflexivity.
  - intros w. reflexivity.
  - intros w. exists resetUpdate, w. split; reflexivity.
  - intros w. exists game, {| Player.id := botId |}. split; reflexivity.
  - reflexivity.
  - reflexivity.
  - reflexivity.
Defined.

(** X16 on the first server, whose engine always accepts PASS. *)
Lemma bounded_dispatch_witness :
  completion (handlePlayAction Example.services Example.constants 1 "g1"
                "alice" Example.placeZzz Example.running) <> Unfinished
  /\ countIf isPlayActionCall
       (trace (handlePlayAction Example.services Example.constants 1 "g1"
                 "alice" Example.placeZzz Example.running)) <= 2.
Proof.
  apply (pass_that_is_no_invalid_word_bounds_the_dispatch Example.World
           Example.services Example.constants "g1" "alice").
  intros w e w1 t H. vm_compute in H. discriminate H.
Defined.

(** X19 on a body signed by somebody else. *)
Lemma error_route_witness :
  postError constants errors "g1" "ann" chat accepted =
    (Some (StatusSent 204%Z), accepted,
     [EmitToSocket "ann" (NewMessage
        {| content := "hello"; senderId := SYSTEM_ERROR_ID constants;
           gameId := "g1"; isClickable := None |})]).
Proof.
  apply (error_route_forces_the_sender World constants errors
           "g1" "ann" chat "hello" accepted).
  - discriminate.
  - reflexivity.
Defined.

(** X20 on a human and on the virtual player, both out of turn. *)
Lemma action_route_witness :
  postAction services constants 0 "g1" "ann" place refused =
    (if isIdVirtualPlayer services "ann" then
       (Some (ErrorSent (HttpException (message notYourTurn)
                           (status notYourTurn))), refused,
        echoTrace "g1" "ann" "!placer h8h chat"
        ++ [PlayActionCall "g1" "ann" place])
     else
       (Some (StatusSent 204%Z), refused,
        echoTrace "g1" "ann" "!placer h8h chat"
        ++ [PlayActionCall "g1" "ann" place;
            commandIsInvalidNotice constants notYourTurn
              (Some "!placer h8h chat") "ann" "g1"]))
  /\ postAction services constants 0 "g1" botId place refused =
     (if isIdVirtualPlayer services botId then
        (Some (ErrorSent (HttpException (message notYourTurn)
                            (status notYourTurn))), refused,
         echoTrace "g1" botId "!placer h8h chat"
         ++ [PlayActionCall "g1" botId place])
      else
        (Some (StatusSent 204%Z), refused,
         echoTrace "g1" botId "!placer h8h chat"
         ++ [PlayActionCall "g1" botId place;
             commandIsInvalidNotice constants notYourTurn
               (Some "!placer h8h chat") botId "g1"])).
Proof.
  split.
  - apply (action_route_reply_depends_on_actor World services constants
             0 "g1" "ann" place PLACE [("tiles", "chat")] "!placer h8h chat"
             refused notYourTurn refused); reflexivity.
  - apply (action_route_reply_depends_on_actor World services constants
             0 "g1" botId place PLACE [("tiles", "chat")] "!placer h8h chat"
             refused notYourTurn refused); reflexivity.
Defined.

End LabRuns.
